(** * Object3DBehaviors: the ECS to scene-graph synchroniser, and GameObject

    A shallow embedding of
    [packages/engine/src/common/behaviors/Object3DBehaviors.ts] and of the
    [GameObject] class, with the properties of the behaviours proved over it.

    - JavaScript values are an inductive type; objects live in a store and
      are referred to by location, so that aliasing (a node reachable from
      an entity, from its parent and from the scene at once) is modelled.
    - An object of the store is a map from the names of its data
      properties to the values that reading them gives.  The [children]
      array of a scene-graph node is kept beside the map, as a list of
      locations, and the methods of a node ([add], [remove], [traverse])
      are functions of the embedding, not entries of the map.
    - Only the objects of the store have properties here, and every one
      of them can be assigned.  What lies outside: the built-in members of
      strings, numbers and booleans (the [length] of a string), the fields
      of a [Color] ([r], [g], [b]) and of an [Entity], the methods of an
      object, its [children] array as a property, and the assignments that
      raise a [TypeError] in a module (to a member of a primitive value,
      to a read-only property).  The statements on the field that a
      property path assigns or skips are about property maps that stay
      among the data properties held in the store ([entries_in_store]).
      Numbers are integers.
    - Exceptions are an outcome of the functions that can raise them. *)

From Stdlib Require Import Ascii String ZArith.
From stdpp Require Import gmap strings list.
From Equations Require Import Equations.

Open Scope string_scope.
Open Scope list_scope.

(** ** JavaScript values *)

Abbreviation loc := nat (only parsing).
Abbreviation entity_id := nat (only parsing).

(** [new Color(n)] and [new Color(s)], kept symbolic. *)
Inductive Color :=
| ColorOfNumber (n : Z)
| ColorOfString (s : string).

Inductive value :=
| VUndefined
| VNull
| VBool (b : bool)
| VNum (n : Z)
| VStr (s : string)
| VColor (c : Color)
| VEntity (e : entity_id)
| VRef (l : loc).

#[global] Instance Color_eq_dec : EqDecision Color.
Proof. solve_decision. Defined.
#[global] Instance value_eq_dec : EqDecision value.
Proof. solve_decision. Defined.

(** [!v] is [negb (truthy v)]. *)
Definition truthy (v : value) : bool :=
  match v with
  | VUndefined | VNull => false
  | VBool b => b
  | VNum n => negb (n =? 0)%Z
  | VStr s => negb (String.eqb s "")
  | VColor _ | VEntity _ | VRef _ => true
  end.

(** [typeof v === 'undefined'] *)
Definition is_undefined (v : value) : bool :=
  match v with VUndefined => true | _ => false end.

(** [typeof v === "number" || typeof v === "string"] *)
Definition is_number_or_string (v : value) : bool :=
  match v with VNum _ | VStr _ => true | _ => false end.

(** [v instanceof Color] *)
Definition instanceof_Color (v : value) : bool :=
  match v with VColor _ => true | _ => false end.

(** [new Color(v)] for a number or a string. *)
Definition new_Color (v : value) : value :=
  match v with
  | VNum n => VColor (ColorOfNumber n)
  | VStr s => VColor (ColorOfString s)
  | _ => v
  end.

(** [v === 'str'] *)
Definition is_str (v : value) (s : string) : bool :=
  match v with VStr s' => String.eqb s' s | _ => false end.

(** ** The object store *)

Record hobj := Hobj {
  is_node : bool;                (* an instance of Object3D *)
  props : gmap string value;
  children : list loc            (* [this.children], empty for plain objects *)
}.

Abbreviation heap := (gmap loc hobj) (only parsing).

Definition set_props (o : hobj) (p : gmap string value) : hobj :=
  Hobj (is_node o) p (children o).
Definition set_children (o : hobj) (c : list loc) : hobj :=
  Hobj (is_node o) (props o) c.

(** [o.k] on an object of the store. *)
Definition oget (o : hobj) (k : string) : value :=
  default VUndefined (props o !! k).

(** [o.k = v] *)
Definition oset (o : hobj) (k : string) (v : value) : hobj :=
  set_props o (<[k := v]> (props o)).

(** [subj[k]]: the data property [k] of an object of the store.  Any other
    value, and a name that the map of the object does not hold, reads
    [undefined]: the built-in members of primitive values, of colours and
    of entities, and the methods of objects, are not looked up. *)
Definition get (h : heap) (subj : value) (k : string) : value :=
  match subj with
  | VRef l => match h !! l with Some o => oget o k | None => VUndefined end
  | _ => VUndefined
  end.

(** [subj[k] = v] on an object of the store, where every property that
    the map holds is writable.  On any other value the store is left as
    it is: [applyDeepValue] assigns only where [get] has read a value, so
    to an object of the store, and the other assignments of the module
    are to nodes. *)
Definition set (h : heap) (subj : value) (k : string) (v : value) : heap :=
  match subj with
  | VRef l => match h !! l with Some o => <[l := oset o k v]> h | None => h end
  | _ => h
  end.

Arguments get : simpl never.
Arguments set : simpl never.

(** [a?.k] *)
Definition get_opt (h : heap) (a : value) (k : string) : value :=
  match a with
  | VUndefined | VNull => VUndefined
  | _ => get h a k
  end.

(** ** Property paths

    [path.match(re)?.groups], where [re] is a named group [property] of
    one or more characters other than a dot, optionally followed by a dot
    and a named group [nextPath] of any characters.  The leftmost match
    starts at the first character that is not a dot; [property] is the
    longest run of such characters; when a dot follows, [nextPath] is what
    follows that dot up to the first line terminator ([.] does not match
    one). *)

Definition is_dot (c : ascii) : bool := Ascii.eqb c "."%char.

Definition is_line_terminator (c : ascii) : bool :=
  Ascii.eqb c "010"%char || Ascii.eqb c "013"%char.

Fixpoint skip_dots (s : string) : string :=
  match s with
  | String c s' => if is_dot c then skip_dots s' else s
  | EmptyString => EmptyString
  end.

(** The longest prefix without a dot, and the rest. *)
Fixpoint span_property (s : string) : string * string :=
  match s with
  | String c s' =>
      if is_dot c then (EmptyString, s)
      else let '(p, r) := span_property s' in (String c p, r)
  | EmptyString => (EmptyString, EmptyString)
  end.

(** The longest prefix without a line terminator. *)
Fixpoint take_line (s : string) : string :=
  match s with
  | String c s' => if is_line_terminator c then EmptyString else String c (take_line s')
  | EmptyString => EmptyString
  end.

(** The [groups] of the match: [None] when there is no match, otherwise
    [property] and [nextPath] ([None] for [undefined]). *)
Definition match_path (path : string) : option (string * option string) :=
  match skip_dots path with
  | EmptyString => None
  | s =>
      match span_property s with
      | (property, String _ rest) => Some (property, Some (take_line rest))
      | (property, EmptyString) => Some (property, None)
      end
  end.

(** [if (nextPath)]: defined and not the empty string. *)
Definition nextPath_truthy (np : option string) : option string :=
  match np with
  | Some EmptyString | None => None
  | Some s => Some s
  end.

(** ** Component types

    The tag components of [Object3DTagComponents], [Object3DComponent],
    [SkyboxComponent] and [TransformComponent]; [OtherComponent] stands
    for every other component class of the engine. *)

Inductive ComponentType :=
| Object3DComponent
| TransformComponent
| SkyboxComponent
| AmbientLightProbeTagComponent
| AmbientLightTagComponent
| ArrayCameraTagComponent
| AudioListenerTagComponent
| AudioTagComponent
| BoneTagComponent
| CameraTagComponent
| CubeCameraTagComponent
| DirectionalLightTagComponent
| GroupTagComponent
| HemisphereLightProbeTagComponent
| HemisphereLightTagComponent
| ImmediateRenderObjectTagComponent
| InstancedMeshTagComponent
| LightProbeTagComponent
| LightTagComponent
| LineSegmentsTagComponent
| LineTagComponent
| LODTagComponent
| MeshTagComponent
| OrthographicCameraTagComponent
| PerspectiveCameraTagComponent
| PointLightTagComponent
| PointsTagComponent
| PositionalAudioTagComponent
| RectAreaLightTagComponent
| SceneTagComponent
| SkinnedMeshTagComponent
| SpotLightTagComponent
| SpriteTagComponent
| OtherComponent (id : nat).

#[global] Instance ComponentType_eq_dec : EqDecision ComponentType.
Proof. solve_decision. Defined.

(** ** Entities and the engine state *)

(** An entity owns components by type: [componentTypes] is the list of
    the types, in the order they were added, and each component is
    represented by the content of its [value] field ([VUndefined] for a
    tag component, which has no data). *)
Record Entity := mkEntity {
  components : list (ComponentType * value)
}.

Definition componentTypes (e : Entity) : list ComponentType :=
  (components e).*1.

Fixpoint comp_lookup (C : ComponentType) (l : list (ComponentType * value))
  : option value :=
  match l with
  | [] => None
  | (C', v) :: l' => if decide (C' = C) then Some v else comp_lookup C l'
  end.

(** Set the component of type [C], adding it at the end when absent. *)
Fixpoint comp_insert (C : ComponentType) (v : value)
  (l : list (ComponentType * value)) : list (ComponentType * value) :=
  match l with
  | [] => [(C, v)]
  | (C', v') :: l' =>
      if decide (C' = C) then (C, v) :: l' else (C', v') :: comp_insert C v l'
  end.

(** Remove the first component of type [C] (a [splice] at its index). *)
Fixpoint comp_remove (C : ComponentType) (l : list (ComponentType * value))
  : list (ComponentType * value) :=
  match l with
  | [] => []
  | (C', v') :: l' =>
      if decide (C' = C) then l' else (C', v') :: comp_remove C l'
  end.

Inductive outcome (A : Type) :=
| Done (a : A)
| TypeError          (* an exception is raised *)
| OutOfFuel.         (* the recursion did not end within the fuel *)
Arguments Done {A} a.
Arguments TypeError {A}.
Arguments OutOfFuel {A}.

#[global] Instance outcome_ret : MRet outcome := λ A a, Done a.
#[global] Instance outcome_bind : MBind outcome := λ A B f m,
  match m with
  | Done a => f a
  | TypeError => TypeError
  | OutOfFuel => OutOfFuel
  end.

(** The state the behaviours act on: the object store, the globals
    [Engine.scene] and [Engine.csm], the console, and the entities. *)
Record World := mkWorld {
  heap_of : heap;
  scene : loc;                        (* Engine.scene *)
  csm : option (list value);          (* Engine.csm, with the materials set up *)
  console : list string;              (* console.warn and console.error *)
  ents : gmap entity_id Entity;       (* the entity objects *)
  entities : list entity_id;          (* Engine.entities *)
  entitiesToRemove : list entity_id   (* removals deferred to the end of the frame *)
}.

Definition with_heap (w : World) (h : heap) : World :=
  mkWorld h (scene w) (csm w) (console w) (ents w) (entities w) (entitiesToRemove w).
Definition with_csm (w : World) (c : option (list value)) : World :=
  mkWorld (heap_of w) (scene w) c (console w) (ents w) (entities w) (entitiesToRemove w).
Definition with_console (w : World) (c : list string) : World :=
  mkWorld (heap_of w) (scene w) (csm w) c (ents w) (entities w) (entitiesToRemove w).
Definition with_ents (w : World) (m : gmap entity_id Entity) : World :=
  mkWorld (heap_of w) (scene w) (csm w) (console w) m (entities w) (entitiesToRemove w).
Definition with_entities (w : World) (l : list entity_id) : World :=
  mkWorld (heap_of w) (scene w) (csm w) (console w) (ents w) l (entitiesToRemove w).
Definition with_entitiesToRemove (w : World) (l : list entity_id) : World :=
  mkWorld (heap_of w) (scene w) (csm w) (console w) (ents w) (entities w) l.

Definition console_warn (w : World) (msg : string) : World :=
  with_console w (console w ++ [msg]).
Definition console_error (w : World) (msg : string) : World :=
  with_console w (console w ++ [msg]).

(** The entity object behind an identifier. *)
Definition ent (w : World) (e : entity_id) : Entity :=
  default (mkEntity []) (ents w !! e).

(** ** The ECS functions of [EntityFunctions] *)

(** Modelled from the spec: [EntityFunctions.hasComponent] is not among the
    sources; an entity owns zero or more components by type. *)
Definition hasComponent (w : World) (e : entity_id) (C : ComponentType) : bool :=
  bool_decide (C ∈ componentTypes (ent w e)).

(** Modelled from the spec: [EntityFunctions.getComponent] is not among the
    sources; it is the component of that type, [None] standing for
    [undefined] when the entity has none.  The model keeps no store of
    removed components, so [includeRemoved] does not change the result. *)
Definition getComponent (w : World) (e : entity_id) (C : ComponentType)
  (includeRemoved : bool) : option value :=
  comp_lookup C (components (ent w e)).

(** Modelled from the spec: [EntityFunctions.addComponent] is not among the
    sources; afterwards the entity owns a component of type [C] holding
    [v], and one only. *)
Definition addComponent (w : World) (e : entity_id) (C : ComponentType)
  (v : value) : World :=
  with_ents w (<[e := mkEntity (comp_insert C v (components (ent w e)))]> (ents w)).

(** Modelled from the spec: [EntityFunctions.removeComponent] is not among
    the sources; the component of type [C] leaves the entity and its list
    of component types. *)
Definition removeComponent (w : World) (e : entity_id) (C : ComponentType) : World :=
  with_ents w (<[e := mkEntity (comp_remove C (components (ent w e)))]> (ents w)).

(** Modelled from the spec: [EntityFunctions.removeEntity] is not among the
    sources; the entity leaves the ECS at once, or is queued to leave it at
    the next scheduling boundary. *)
Definition removeEntity (w : World) (e : entity_id) (immediately : bool) : World :=
  if immediately
  then with_entities w (filter (λ x, x ≠ e) (entities w))
  else with_entitiesToRemove w (entitiesToRemove w ++ [e]).

(** ** [applyDeepValue]

    The closure of [addObject3DComponent] that sets [subj.a.b.c = value]
    from the path [a.b.c].  It recurses on [nextPath], which is shorter
    than [path]. *)

Definition inspect {A} (a : A) : {b | a = b} := exist _ a eq_refl.

Equations? applyDeepValue (w : World) (subj : value) (path : string) (v : value)
  : World by wf (String.length path) lt :=
  applyDeepValue w subj path v with truthy subj := {
    | false := console_warn w "subj is not an object";
    | true with inspect (match_path path) := {
      | exist _ None _ := w;
      | exist _ (Some (property, nextPath)) Hm
          with String.eqb property "" || is_undefined (get (heap_of w) subj property) := {
        | true := w;
        | false with inspect (nextPath_truthy nextPath) := {
          | exist _ (Some np) Hnp :=
              applyDeepValue w (get (heap_of w) subj property) np v;
          | exist _ None _ :=
              if instanceof_Color (get (heap_of w) subj property)
                 && is_number_or_string v
              then with_heap w (set (heap_of w) subj property (new_Color v))
              else with_heap w (set (heap_of w) subj property v) } } } }.
Proof.
  assert (Hskip : forall s, (String.length (skip_dots s) <= String.length s)%nat).
  { induction s as [|c s IH]; simpl; [lia|]. destruct (is_dot c); simpl; lia. }
  assert (Hspan : forall s p r, span_property s = (p, r) ->
            (String.length p + String.length r = String.length s)%nat).
  { induction s as [|c s IH]; simpl; intros p r H.
    - by inversion H.
    - destruct (is_dot c).
      + inversion H; subst. simpl. lia.
      + destruct (span_property s) as [p' r'] eqn:E. inversion H; subst.
        simpl. specialize (IH _ _ eq_refl). lia. }
  assert (Hline : forall s, (String.length (take_line s) <= String.length s)%nat).
  { induction s as [|c s IH]; simpl; [lia|].
    destruct (is_line_terminator c); simpl; lia. }
  assert (Hnext : nextPath = Some np).
  { destruct nextPath as [[|c s]|]; simpl in Hnp; congruence. }
  subst nextPath. clear Hnp. revert Hm.
  unfold match_path. pose proof (Hskip path) as Hs.
  destruct (skip_dots path) as [|c0 s0] eqn:E; [done|].
  destruct (span_property (String c0 s0)) as [p r] eqn:Hsp.
  apply Hspan in Hsp. destruct r as [|d r]; [done|]. intros H. inversion H; subst.
  pose proof (Hline r) as Hr. simpl in *. lia.
Qed.

(** ** The scene-graph library: [Object3D.remove], [add] and [traverse] *)

Fixpoint remove_first (l : loc) (ls : list loc) : list loc :=
  match ls with
  | [] => []
  | x :: ls' => if decide (x = l) then ls' else x :: remove_first l ls'
  end.

(** The object a method is called on must be an [Object3D]. *)
Definition node_at (h : heap) (v : value) : option loc :=
  match v with
  | VRef l => match h !! l with
              | Some o => if is_node o then Some l else None
              | None => None
              end
  | _ => None
  end.

(** Modelled from the spec: the scene-graph library is not among the
    sources.  [this.remove(object)]: when [object] is among the children,
    its [parent] becomes [null] and its first occurrence is spliced out. *)
Definition Object3D_remove (h : heap) (this : loc) (object : value) : heap :=
  match object, h !! this with
  | VRef l, Some p =>
      if bool_decide (l ∈ children p) then
        let h1 := set h object "parent" VNull in
        match h1 !! this with
        | Some p1 => <[this := set_children p1 (remove_first l (children p1))]> h1
        | None => h1
        end
      else h
  | _, _ => h
  end.

(** [recv.remove(object)], a [TypeError] when [recv] has no such method. *)
Definition call_remove (w : World) (recv : value) (object : value) : outcome World :=
  match node_at (heap_of w) recv with
  | Some this => Done (with_heap w (Object3D_remove (heap_of w) this object))
  | None => TypeError
  end.

(** [this.children.push(object)] *)
Definition push_child (h : heap) (this : loc) (l : loc) : heap :=
  match h !! this with
  | Some p => <[this := set_children p (children p ++ [l])]> h
  | None => h
  end.

(** Modelled from the spec: the scene-graph library is not among the
    sources.  [this.add(object)]: an object is not added to itself; an
    [Object3D] leaves its former parent, then becomes the last child of
    [this]; anything else is reported on the console. *)
Definition Object3D_add (w : World) (this : loc) (object : loc) : outcome World :=
  if decide (object = this) then
    Done (console_error w "THREE.Object3D.add: object can't be added as a child of itself.")
  else if truthy (get (heap_of w) (VRef object) "isObject3D") then
    w1 ← match get (heap_of w) (VRef object) "parent" with
         | VNull => Done w
         | p => call_remove w p (VRef object)
         end;
    let h2 := set (heap_of w1) (VRef object) "parent" (VRef this) in
    Done (with_heap w1 (push_child h2 this object))
  else
    Done (console_error w "THREE.Object3D.add: object not an instance of THREE.Object3D.").

(** [recv.add(object)] *)
Definition call_add (w : World) (recv : value) (object : loc) : outcome World :=
  match node_at (heap_of w) recv with
  | Some this => Object3D_add w this object
  | None => TypeError
  end.

(** Run [f] on the elements of [l] in turn, threading the state. *)
Fixpoint forM {S A} (f : A -> S -> outcome S) (l : list A) (s : S) : outcome S :=
  match l with
  | [] => Done s
  | a :: l' => s' ← f a s; forM f l' s'
  end.

(** Modelled from the spec: the scene-graph library is not among the
    sources.  [this.traverse(callback)] calls [callback] on [this], then
    traverses each child in order.  The callbacks of this module do not
    change any [children] array, so the children are read once, after the
    call on [this].  The recursion follows the store, hence the fuel. *)
Fixpoint traverse (fuel : nat) (callback : loc -> World -> World)
  (this : loc) (w : World) : outcome World :=
  match fuel with
  | 0 => OutOfFuel
  | S fuel' =>
      match node_at (heap_of w) (VRef this) with
      | Some _ =>
          let w1 := callback this w in
          match heap_of w1 !! this with
          | Some o => forM (traverse fuel' callback) (children o) w1
          | None => TypeError
          end
      | None => TypeError
      end
  end.

(** ** [getComponentTags] *)

(** [object3d.type === 'Audio' && object3d.panner !== undefined] *)
Definition is_positional_audio (h : heap) (object3d : value) : bool :=
  is_str (get h object3d "type") "Audio"
  && negb (is_undefined (get h object3d "panner")).

(** The chain of [if ... else if ...] that starts at the second [if]: what
    it pushes, in order. *)
Definition getComponentTags_chain (h : heap) (object3d : value)
  : list ComponentType :=
  let type := get h object3d "type" in
  let marker k := truthy (get h object3d k) in
  (if is_positional_audio h object3d then [PositionalAudioTagComponent]
   else if is_str type "Audio" then [AudioTagComponent]
   else if is_str type "AudioListener" then [AudioListenerTagComponent]
   else if marker "isCamera" then
     [CameraTagComponent] ++
     (if marker "isOrthographicCamera" then [OrthographicCameraTagComponent]
      else if marker "isPerspectiveCamera" then [PerspectiveCameraTagComponent]
      else []) ++
     (if marker "isArrayCamera" then [ArrayCameraTagComponent]
      else if is_str type "CubeCamera" then [CubeCameraTagComponent]
      else if marker "isImmediateRenderObject" then [ImmediateRenderObjectTagComponent]
      else [])
   else if marker "isLight" then
     [LightTagComponent] ++
     (if marker "isAmbientLight" then [AmbientLightTagComponent]
      else if marker "isDirectionalLight" then [DirectionalLightTagComponent]
      else if marker "isHemisphereLight" then [HemisphereLightTagComponent]
      else if marker "isPointLight" then [PointLightTagComponent]
      else if marker "isRectAreaLight" then [RectAreaLightTagComponent]
      else if marker "isSpotLight" then [SpotLightTagComponent]
      else [])
   else if marker "isLightProbe" then
     [LightProbeTagComponent] ++
     (if marker "isAmbientLightProbe" then [AmbientLightProbeTagComponent]
      else if marker "isHemisphereLightProbe" then [HemisphereLightProbeTagComponent]
      else [])
   else if marker "isBone" then [BoneTagComponent]
   else if marker "isGroup" then [GroupTagComponent]
   else if marker "isLOD" then [LODTagComponent]
   else if marker "isMesh" then
     [MeshTagComponent] ++
     (if marker "isInstancedMesh" then [InstancedMeshTagComponent]
      else if marker "isSkinnedMesh" then [SkinnedMeshTagComponent]
      else [])
   else if marker "isLine" then
     [LineTagComponent] ++
     (if marker "isLineLoop" then [HemisphereLightProbeTagComponent]
      else if marker "isLineSegments" then [LineSegmentsTagComponent]
      else [])
   else if marker "isPoints" then [PointsTagComponent]
   else if marker "isSprite" then [SpriteTagComponent]
   else if marker "isScene" then [SceneTagComponent]
   else if marker "isSky" then [SkyboxComponent]
   else []).

(** The first [if] pushes on its own, then the chain runs. *)
Definition getComponentTags (h : heap) (object3d : value) : list ComponentType :=
  (if is_positional_audio h object3d then [PositionalAudioTagComponent] else [])
  ++ getComponentTags_chain h object3d.

(** ** The behaviours *)

(** [args.obj3d]: an object ([typeof args.obj3d === 'object']) or a
    constructor, given by the object that [new args.obj3d()] builds. *)
Inductive obj3d_arg :=
| ObjectInstance (l : loc)
| ObjectConstructor (built : hobj).

(** [args.objArgs]: absent, [null], or an object, given by its entries in
    the order of [Object.keys]. *)
Inductive objArgs_arg :=
| NoObjArgs
| NullObjArgs
| ObjArgs (entries : list (string * value)).

Record attach_args := mkArgs {
  obj3d : obj3d_arg;
  objArgs : objArgs_arg;
  parentEntity : option entity_id
}.

(** [Object.keys(args.objArgs).forEach(key => applyDeepValue(object3d, key, args.objArgs[key]))] *)
Definition apply_entries (w : World) (object3d : value)
  (entries : list (string * value)) : World :=
  foldl (λ w kv, applyDeepValue w object3d kv.1 kv.2) w entries.

(** [typeof args.objArgs === 'object' && Object.keys(args.objArgs).forEach(...)];
    [typeof null] is ['object'] and [Object.keys(null)] raises. *)
Definition apply_objArgs (w : World) (object3d : value) (a : objArgs_arg)
  : outcome World :=
  match a with
  | NoObjArgs => Done w
  | NullObjArgs => TypeError
  | ObjArgs entries => Done (apply_entries w object3d entries)
  end.

(** [obj.material?.userData?.gltfExtensions?.MOZ_lightmap] *)
Definition MOZ_lightmap (h : heap) (obj : value) : value :=
  get_opt h (get_opt h (get_opt h (get h obj "material") "userData")
                     "gltfExtensions") "MOZ_lightmap".

(** [Engine.csm?.setupMaterial(material)] *)
Definition csm_setupMaterial (w : World) (material : value) : World :=
  match csm w with
  | Some done => with_csm w (Some (done ++ [material]))
  | None => w
  end.

(** The callback of the traversal in [addObject3DComponent]. *)
Definition shadow_callback (obj : loc) (w : World) : World :=
  let type := get (heap_of w) (VRef obj) "type" in
  if is_str type "Mesh" || is_str type "SkinnedMesh" then
    let w1 := with_heap w (set (heap_of w) (VRef obj) "castShadow" (VBool true)) in
    if negb (truthy (MOZ_lightmap (heap_of w1) (VRef obj))) then
      let w2 := with_heap w1 (set (heap_of w1) (VRef obj) "receiveShadow" (VBool true)) in
      let material := get (heap_of w2) (VRef obj) "material" in
      if truthy material then csm_setupMaterial w2 material else w2
    else w1
  else w.

(** [new args.obj3d()] puts the object built at a fresh location. *)
Definition instantiate (w : World) (a : obj3d_arg) : loc * World :=
  match a with
  | ObjectInstance l => (l, w)
  | ObjectConstructor built =>
      let l := fresh (dom (heap_of w)) in
      (l, with_heap w (<[l := built]> (heap_of w)))
  end.

(** [getComponentTags(object3d).forEach(component => addComponent(entity, component))] *)
Definition add_tags (w : World) (entity : entity_id) (tags : list ComponentType)
  : World :=
  foldl (λ w component, addComponent w entity component VUndefined) w tags.

Definition addObject3DComponent (fuel : nat) (w : World) (entity : entity_id)
  (args : attach_args) : outcome World :=
  let '(object3d, w0) := instantiate w (obj3d args) in
  w1 ← apply_objArgs w0 (VRef object3d) (objArgs args);
  w2 ← traverse fuel shadow_callback object3d w1;
  let w3 := addComponent w2 entity Object3DComponent (VRef object3d) in
  let w4 := add_tags w3 entity (getComponentTags (heap_of w3) (VRef object3d)) in
  w5 ← match parentEntity args with
       | Some parent =>
           if hasComponent w4 parent Object3DComponent then
             match getComponent w4 parent Object3DComponent false with
             | Some node => call_add w4 node object3d
             | None => TypeError
             end
           else call_add w4 (VRef (scene w4)) object3d
       | None => call_add w4 (VRef (scene w4)) object3d
       end;
  Done (with_heap w5 (set (heap_of w5) (VRef object3d) "entity" (VEntity entity))).

(** [getObject3D]: [component && component.value] *)
Definition getObject3D (w : World) (entity : entity_id) : value :=
  match getComponent w entity Object3DComponent false with
  | Some v => v
  | None => VUndefined
  end.

(** [v == undefined] *)
Definition is_nullish (v : value) : bool :=
  match v with VUndefined | VNull => true | _ => false end.

Section Detach.

(** The static marker [Component.isObject3DTagComponent]; the classes that
    carry it are declared in [Object3DTagComponents], which is not among
    the sources. *)
Variable isObject3DTagComponent : ComponentType -> bool.

(** The loop [for (let i = ...length - 1; i >= 0; i--)] of
    [removeObject3DComponent], entered with [n = i + 1]. *)
Fixpoint remove_tags_loop (n : nat) (w : World) (entity : entity_id)
  : outcome World :=
  match n with
  | 0 => Done w
  | S i =>
      match componentTypes (ent w entity) !! i with
      | Some Component =>
          remove_tags_loop i
            (if isObject3DTagComponent Component
             then removeComponent w entity Component else w)
            entity
      | None => TypeError      (* [undefined.isObject3DTagComponent] *)
      end
  end.

(** [unparent] is [true] when the caller leaves it out. *)
Definition removeObject3DComponent (w : World) (entity : entity_id)
  (unparent : bool) : outcome World :=
  match getComponent w entity Object3DComponent true with
  | None => TypeError          (* [undefined.value] *)
  | Some object3d =>
      if is_nullish object3d then Done w
      else
        w1 ← call_remove w (VRef (scene w)) object3d;
        w2 ← (if unparent then
                let parent := get (heap_of w1) object3d "parent" in
                if truthy parent then call_remove w1 parent object3d else Done w1
              else Done w1);
        let w3 := removeComponent w2 entity Object3DComponent in
        w4 ← remove_tags_loop (length (componentTypes (ent w3 entity))) w3 entity;
        Done (with_heap w4 (set (heap_of w4) object3d "entity" VNull))
  end.

End Detach.

(** The callback of the traversal in [remove]: the assignment is outside
    the [if].  Entities are the only truthy values [removeEntity] acts on. *)
Definition remove_callback (forceImmediate : bool) (o : loc) (w : World) : World :=
  let entity := get (heap_of w) (VRef o) "entity" in
  let w1 := match entity with
            | VEntity e => removeEntity w e forceImmediate
            | _ => w
            end in
  with_heap w1 (set (heap_of w1) (VRef o) "entity" VNull).

Definition remove (fuel : nat) (w : World) (entity : entity_id)
  (forceImmediate : bool) : outcome World :=
  w1 ← (if hasComponent w entity Object3DComponent then
          match getObject3D w entity with
          | VRef obj =>
              w' ← traverse fuel (remove_callback forceImmediate) obj w;
              let parent := get (heap_of w') (VRef obj) "parent" in
              if truthy parent then call_remove w' parent (VRef obj) else Done w'
          | _ => TypeError     (* no [traverse] on the value *)
          end
        else Done w);
  Done (removeEntity w1 entity forceImmediate).

(** ** [GameObject] *)

Module GameObject.

(** Modelled from the spec: [EntityFunctions.addComponentToEntity] is not
    among the sources; afterwards the entity owns a component of type [C]. *)
Definition addComponentToEntity (w : World) (entity : entity_id)
  (C : ComponentType) : World :=
  addComponent w entity C VUndefined.

(** Modelled from the spec: [EntityFunctions.removeComponentFromEntity] is
    not among the sources; the component of type [C] leaves the entity, at
    once or at the end of the frame. *)
Definition removeComponentFromEntity (w : World) (entity : entity_id)
  (C : ComponentType) (forceImmediate : option bool) : World :=
  removeComponent w entity C.

(** [new GameObject()]: [super()] makes an entity without components, at
    a fresh identifier; the result is the new object. *)
Definition constructor (w : World) : World * entity_id :=
  let this := fresh (dom (ents w)) in
  let w1 := with_ents w (<[this := mkEntity []]> (ents w)) in
  (addComponentToEntity w1 this TransformComponent, this).

(** [removeComponent(component, forceImmediate)] returns [this]. *)
Definition removeComponent (w : World) (this : entity_id)
  (component : ComponentType) (forceImmediate : option bool)
  : World * entity_id :=
  if decide (component ≠ TransformComponent)
  then (removeComponentFromEntity w this component forceImmediate, this)
  else (w, this).

(** A sequence of calls of [removeComponent] on the same object. *)
Definition removeComponents (w : World) (this : entity_id)
  (calls : list (ComponentType * option bool)) : World :=
  foldl (λ w c, (removeComponent w this c.1 c.2).1) w calls.

End GameObject.

(** ** The dispatch table of the specification

    The table of section 4.1, as data: a priority chain of rows, the first
    row whose subtype test holds gives its tag, and each of its groups of
    more specific tags gives the first tag of the group that applies. *)

Inductive node_test :=
| HasType (name : string)            (* the type name of the node *)
| HasMarker (key : string)           (* a boolean subtype marker *)
| PositionalAudioCapable.            (* an audio node with a panner *)

Definition test_holds (h : heap) (node : value) (t : node_test) : bool :=
  match t with
  | HasType name => is_str (get h node "type") name
  | HasMarker key => truthy (get h node key)
  | PositionalAudioCapable =>
      is_str (get h node "type") "Audio"
      && negb (is_undefined (get h node "panner"))
  end.

Record table_row := Row {
  subtype : node_test;
  tag : ComponentType;
  specific : list (list (node_test * ComponentType))
}.

(** The row for meshes, with its group of more specific tags. *)
Definition mesh_row : table_row :=
  Row (HasMarker "isMesh") MeshTagComponent
    [ [ (HasMarker "isInstancedMesh", InstancedMeshTagComponent);
        (HasMarker "isSkinnedMesh", SkinnedMeshTagComponent) ] ].

Definition dispatch_table : list table_row := [
  Row PositionalAudioCapable PositionalAudioTagComponent [];
  Row (HasType "Audio") AudioTagComponent [];
  Row (HasType "AudioListener") AudioListenerTagComponent [];
  Row (HasMarker "isCamera") CameraTagComponent
    [ [ (HasMarker "isOrthographicCamera", OrthographicCameraTagComponent);
        (HasMarker "isPerspectiveCamera", PerspectiveCameraTagComponent) ];
      [ (HasMarker "isArrayCamera", ArrayCameraTagComponent);
        (HasType "CubeCamera", CubeCameraTagComponent);
        (HasMarker "isImmediateRenderObject", ImmediateRenderObjectTagComponent) ] ];
  Row (HasMarker "isLight") LightTagComponent
    [ [ (HasMarker "isAmbientLight", AmbientLightTagComponent);
        (HasMarker "isDirectionalLight", DirectionalLightTagComponent);
        (HasMarker "isHemisphereLight", HemisphereLightTagComponent);
        (HasMarker "isPointLight", PointLightTagComponent);
        (HasMarker "isRectAreaLight", RectAreaLightTagComponent);
        (HasMarker "isSpotLight", SpotLightTagComponent) ] ];
  Row (HasMarker "isLightProbe") LightProbeTagComponent
    [ [ (HasMarker "isAmbientLightProbe", AmbientLightProbeTagComponent);
        (HasMarker "isHemisphereLightProbe", HemisphereLightProbeTagComponent) ] ];
  Row (HasMarker "isBone") BoneTagComponent [];
  Row (HasMarker "isGroup") GroupTagComponent [];
  Row (HasMarker "isLOD") LODTagComponent [];
  mesh_row;
  Row (HasMarker "isLine") LineTagComponent
    [ [ (HasMarker "isLineLoop", HemisphereLightProbeTagComponent);
        (HasMarker "isLineSegments", LineSegmentsTagComponent) ] ];
  Row (HasMarker "isPoints") PointsTagComponent [];
  Row (HasMarker "isSprite") SpriteTagComponent [];
  Row (HasMarker "isScene") SceneTagComponent [];
  Row (HasMarker "isSky") SkyboxComponent []
].

(** The first tag of a group whose test holds, if any. *)
Fixpoint first_applicable (h : heap) (node : value)
  (group : list (node_test * ComponentType)) : list ComponentType :=
  match group with
  | [] => []
  | (t, C) :: group' =>
      if test_holds h node t then [C] else first_applicable h node group'
  end.

(** The row of the node: the first whose subtype test holds. *)
Fixpoint matching_row (h : heap) (node : value) (rows : list table_row)
  : option table_row :=
  match rows with
  | [] => None
  | r :: rows' =>
      if test_holds h node (subtype r) then Some r else matching_row h node rows'
  end.

Definition table_tags (h : heap) (node : value) : list ComponentType :=
  match matching_row h node dispatch_table with
  | Some r => tag r :: concat (map (first_applicable h node) (specific r))
  | None => []
  end.

(** * Specification-level definitions *)

Definition shape (o : hobj) : bool * list loc := (is_node o, children o).

Definition same_shape (h h' : heap) : Prop :=
  ∀ l, shape <$> h !! l = shape <$> h' !! l.

Definition node (h : heap) (l : loc) : Prop :=
  ∃ o, h !! l = Some o ∧ is_node o = true.

Fixpoint tree (h : heap) (d : nat) (l : loc) : Prop :=
  match d with
  | 0 => False
  | S d' => ∃ o, h !! l = Some o ∧ is_node o = true ∧ Forall (tree h d') (children o)
  end.

Inductive descendant (h : heap) : loc -> loc -> Prop :=
| descendant_self l : descendant h l l
| descendant_child l o c x :
    h !! l = Some o -> c ∈ children o -> descendant h c x -> descendant h l x.

(** The properties outside [ks] read the same in [h'] as in [h]. *)
Definition frame_except (ks : list string) (h h' : gmap nat hobj) : Prop :=
  ∀ x k, k ∉ ks -> get h' x k = get h x k.

(** The scene root and the entities are the same. *)
Definition same_ecs (w w' : World) : Prop :=
  scene w' = scene w ∧ ents w' = ents w
  ∧ entities w' = entities w ∧ entitiesToRemove w' = entitiesToRemove w.





(** Same objects, each a node or not as before; children may differ. *)
Definition same_nodes (h h' : gmap nat hobj) : Prop :=
  ∀ l, is_node <$> h !! l = is_node <$> h' !! l.

Definition parent_key : list string := ["parent"].

(** The children after [this.remove(object)]. *)
Definition children_of (h : gmap nat hobj) (x : loc) : list loc :=
  match h !! x with Some o => children o | None => [] end.

(** The segments of [a.b.c]: the pieces between the dots. *)
Fixpoint split_dots (s : string) : list string :=
  match s with
  | EmptyString => [EmptyString]
  | String c s' =>
      if is_dot c then EmptyString :: split_dots s'
      else match split_dots s' with
           | seg :: segs => String c seg :: segs
           | [] => [String c EmptyString]
           end
  end.

Fixpoint has_line_terminator (s : string) : bool :=
  match s with
  | EmptyString => false
  | String c s' => is_line_terminator c || has_line_terminator s'
  end.

(** A path of one or more non-empty segments, on one line: the regular
    expression of [applyDeepValue] skips an empty segment, and its
    [nextPath] ends at the first line terminator. *)
Definition valid_path (path : string) : Prop :=
  Forall (λ seg, seg ≠ EmptyString) (split_dots path)
  ∧ has_line_terminator path = false.


(** Every segment names a property, not [undefined], that the object of
    the store reached before it holds. *)
Fixpoint resolves (h : gmap nat hobj) (subj : value) (segs : list string) : Prop :=
  match segs with
  | [] => True
  | seg :: segs' => get h subj seg ≠ VUndefined ∧ resolves h (get h subj seg) segs'
  end.








Definition link_keys : list string := ["parent"; "entity"].


(** Everything but the entity objects is the same. *)
Definition same_but_ents (w w' : World) : Prop :=
  heap_of w' = heap_of w ∧ scene w' = scene w ∧ csm w' = csm w
  ∧ console w' = console w ∧ entities w' = entities w
  ∧ entitiesToRemove w' = entitiesToRemove w.

(** The [parent] of [l] is falsy or a node. *)
Definition parent_detachable (h : gmap nat hobj) (l : loc) : Prop :=
  truthy (get h (VRef l) "parent") = false
  ∨ ∃ p, get h (VRef l) "parent" = VRef p ∧ node h p.

(** [removeEntity] was called on [e] with the flag. *)
Definition removed_as (forceImmediate : bool) (w : World) (e : entity_id) : Prop :=
  if forceImmediate then e ∉ entities w else e ∈ entitiesToRemove w.

(** The entity is in the ECS and not about to leave it. *)
Definition alive (w : World) (e : entity_id) : Prop :=
  e ∈ entities w ∧ e ∉ entitiesToRemove w.

Definition entity_key : list string := ["entity"].

(** A scene-graph node with the fields every [Object3D] has. *)
Definition node_obj (type : string) (fields : list (string * value))
  (kids : list loc) : hobj :=
  Hobj true
    (list_to_map (fields ++ [("type", VStr type); ("isObject3D", VBool true);
                             ("parent", VNull)]))
    kids.

(** A plain object. *)
Definition plain_obj (fields : list (string * value)) : hobj :=
  Hobj false (list_to_map fields) [].

(** An engine with the scene at location 0 and the objects [objs]. *)
Definition engine_with (objs : list (loc * hobj)) : World :=
  mkWorld (list_to_map ((0, node_obj "Scene" [("isScene", VBool true)] []) :: objs))
          0 None [] ∅ [] [].

Definition skinned_mesh_world : World :=
  engine_with [(1, node_obj "SkinnedMesh"
                     [("isMesh", VBool true); ("isSkinnedMesh", VBool true)] [])].

Definition attach_instance (l : loc) : attach_args := mkArgs (ObjectInstance l) NoObjArgs None.






(** A mesh with a coloured material. *)
Definition coloured_world : World :=
  engine_with
    [ (1, node_obj "Mesh" [("isMesh", VBool true); ("material", VRef 2)] []);
      (2, plain_obj [("color", VColor (ColorOfNumber 0)); ("opacity", VNum 1)]) ].

Definition coloured_args : attach_args :=
  mkArgs (ObjectInstance 1)
    (ObjArgs [("material.color", VStr "#fff"); ("material.opacity", VNum 0)]) None.

(** A light that is asked to cast shadows: it is no mesh, and the
    traversal leaves its [castShadow] alone. *)
Definition light_world : World :=
  engine_with [(1, node_obj "DirectionalLight"
                     [("isLight", VBool true); ("isDirectionalLight", VBool true);
                      ("castShadow", VBool false)] [])].

(** A mesh whose [material] and [customDepthMaterial] are one object:
    the second entry writes the field that the first one wrote. *)
Definition aliased_world : World :=
  engine_with
    [ (1, node_obj "Mesh" [("isMesh", VBool true); ("material", VRef 2);
                           ("customDepthMaterial", VRef 2)] []);
      (2, plain_obj [("opacity", VNum 1)]) ].


(** The tags of the table, with [SkyboxComponent] among them. *)
Definition row_tags (r : table_row) : list ComponentType :=
  tag r :: (concat (specific r)).*2.

Definition table_range : list ComponentType :=
  concat (map row_tags dispatch_table).

(** A marker that every tag of the table carries, [SkyboxComponent]
    included. *)
Definition marks_table_tags (C : ComponentType) : bool :=
  bool_decide (C ∈ table_range).

(** An audio source with a panner. *)
Definition positional_audio_world : World :=
  engine_with [(1, node_obj "Audio" [("panner", VRef 2)] []); (2, plain_obj [])].

(** The skinned mesh, attached to the entity 7. *)
Definition attached_world : World := Eval vm_compute in
  match addObject3DComponent 1 skinned_mesh_world 7 (attach_instance 1) with
  | Done w => w
  | _ => skinned_mesh_world
  end.

(** A new game object that was given a mesh tag. *)
Definition game_object_world : World :=
  addComponent (GameObject.constructor (engine_with [])).1
               (GameObject.constructor (engine_with [])).2 MeshTagComponent VUndefined.

Definition game_object : entity_id := (GameObject.constructor (engine_with [])).2.

(** The node is in the scene graph: it is the scene root or below it. *)
Definition attached (w : World) (x : loc) : Prop :=
  descendant (heap_of w) (scene w) x.

(** No node refers to an entity that left the ECS, and no entity of the
    ECS refers to a node outside the scene graph. *)
Definition no_dangling (w : World) : Prop :=
  (∀ x e, get (heap_of w) (VRef x) "entity" = VEntity e -> alive w e)
  ∧ (∀ e x, alive w e -> getComponent w e Object3DComponent false = Some (VRef x) ->
            attached w x).

(** The back-reference of a node names the entity that holds the node,
    and the node of a live entity refers back to it. *)
Definition ownership (w : World) : Prop :=
  (∀ x e, get (heap_of w) (VRef x) "entity" = VEntity e ->
          getComponent w e Object3DComponent false = Some (VRef x))
  ∧ (∀ e x, alive w e -> getComponent w e Object3DComponent false = Some (VRef x) ->
            get (heap_of w) (VRef x) "entity" = VEntity e).

(** The [parent] of [obj] is [null], or a node that has [obj] once among
    its children. *)
Definition parent_link (h : gmap nat hobj) (obj : loc) : Prop :=
  get h (VRef obj) "parent" = VNull
  ∨ ∃ p, get h (VRef obj) "parent" = VRef p ∧ node h p
         ∧ obj ∈ children_of h p ∧ NoDup (children_of h p).

(** The cascading removal as the specification words it. *)
Definition cascade_as_stated : Prop :=
  ∀ fuel w e fi w',
    no_dangling w -> hasComponent w e Object3DComponent = true ->
    remove fuel w e fi = Done w' -> no_dangling w'.

#[global] Instance alive_dec w e : Decision (alive w e).
Proof. unfold alive. apply _. Defined.

(** Two entities that were attached to the same mesh. *)
Definition shared_world : World := Eval vm_compute in
  let w0 := with_entities
              (engine_with [(1, node_obj "Mesh" [("isMesh", VBool true)] [])]) [5; 6] in
  match addObject3DComponent 1 w0 5 (attach_instance 1) with
  | Done w1 =>
      match addObject3DComponent 1 w1 6 (attach_instance 1) with
      | Done w2 => w2
      | _ => w0
      end
  | _ => w0
  end.

(** The state after the second entity is removed. *)
Definition shared_world_after : World := Eval vm_compute in
  match remove 1 shared_world 6 true with
  | Done w' => w'
  | _ => shared_world
  end.

(** A group with two meshes below it, each owned by an entity of its own. *)
Definition cascade_world : World := Eval vm_compute in
  let w0 := with_entities
              (engine_with [(1, node_obj "Group" [("isGroup", VBool true)] []);
                            (2, node_obj "Mesh" [("isMesh", VBool true)] []);
                            (3, node_obj "Mesh" [("isMesh", VBool true)] [])])
              [10; 11; 12] in
  match addObject3DComponent 1 w0 10 (mkArgs (ObjectInstance 1) NoObjArgs None) with
  | Done w1 =>
      match addObject3DComponent 1 w1 11 (mkArgs (ObjectInstance 2) NoObjArgs (Some 10)) with
      | Done w2 =>
          match addObject3DComponent 1 w2 12 (mkArgs (ObjectInstance 3) NoObjArgs (Some 10)) with
          | Done w3 => w3
          | _ => w0
          end
      | _ => w0
      end
  | _ => w0
  end.

(** The entity [e] holds the node [x]. *)
Definition holds_node (w : World) (x e : nat) : Prop :=
  getComponent w e Object3DComponent false = Some (VRef x).

#[global] Instance holds_node_dec w x e : Decision (holds_node w x e).
Proof. unfold holds_node. apply _. Defined.

(** A skinned mesh and a point light. *)
Definition two_nodes_world : World := Eval vm_compute in
  engine_with
    [ (1, node_obj "SkinnedMesh" [("isMesh", VBool true); ("isSkinnedMesh", VBool true)] []);
      (2, node_obj "PointLight" [("isLight", VBool true); ("isPointLight", VBool true)] []) ].

(** The value is an object of the store: a node or a plain object. *)
Definition is_store_object (h : gmap nat hobj) (v : value) : bool :=
  match v with
  | VRef l => bool_decide (is_Some (h !! l))
  | _ => false
  end.

(** [applyDeepValue] on [subj] and [path] looks properties up on objects
    of the store only: it follows the calls of [applyDeepValue], and
    fails where a property would be read on a truthy value that is no
    object of the store (a string, a number, a boolean, a colour, an
    entity), whose built-in members the store does not hold. *)
Equations? stays_in_store (h : gmap nat hobj) (subj : value) (path : string)
  : bool by wf (String.length path) lt :=
  stays_in_store h subj path with truthy subj := {
    | false := true;
    | true with inspect (match_path path) := {
      | exist _ None _ := true;
      | exist _ (Some (property, nextPath)) Hm
          with String.eqb property "" := {
        | true := true;
        | false with is_store_object h subj := {
          | false := false;
          | true with is_undefined (get h subj property) := {
            | true := true;
            | false with inspect (nextPath_truthy nextPath) := {
              | exist _ (Some np) Hnp := stays_in_store h (get h subj property) np;
              | exist _ None _ := true } } } } } }.
Proof.
  assert (Hskip : forall s, (String.length (skip_dots s) <= String.length s)%nat).
  { induction s as [|c s IH]; simpl; [lia|]. destruct (is_dot c); simpl; lia. }
  assert (Hspan : forall s p r, span_property s = (p, r) ->
            (String.length p + String.length r = String.length s)%nat).
  { induction s as [|c s IH]; simpl; intros p r H.
    - by inversion H.
    - destruct (is_dot c).
      + inversion H; subst. simpl. lia.
      + destruct (span_property s) as [p' r'] eqn:E. inversion H; subst.
        simpl. specialize (IH _ _ eq_refl). lia. }
  assert (Hline : forall s, (String.length (take_line s) <= String.length s)%nat).
  { induction s as [|c s IH]; simpl; [lia|].
    destruct (is_line_terminator c); simpl; lia. }
  assert (Hnext : nextPath = Some np).
  { destruct nextPath as [[|c s]|]; simpl in Hnp; congruence. }
  subst nextPath. clear Hnp. revert Hm.
  unfold match_path. pose proof (Hskip path) as Hs.
  destruct (skip_dots path) as [|c0 s0] eqn:E; [done|].
  destruct (span_property (String c0 s0)) as [p r] eqn:Hsp.
  apply Hspan in Hsp. destruct r as [|d r]; [done|]. intros H. inversion H; subst.
  pose proof (Hline r) as Hr. simpl in *. lia.
Qed.



(** The line feed. *)
Definition LF : string := String (ascii_of_nat 10) EmptyString.

(** A material with a property whose name has a line feed in it. *)
Definition two_line_world : World :=
  engine_with
    [ (1, node_obj "Mesh" [("isMesh", VBool true); ("material", VRef 2)] []);
      (2, plain_obj [("opacity", VNum 1); ("opacity" +:+ LF +:+ "q", VNum 1)]) ].

(** The tag classes that the module imports from [Object3DTagComponents]. *)
Definition tag_classes : list ComponentType :=
  [ AmbientLightProbeTagComponent; AmbientLightTagComponent; ArrayCameraTagComponent;
    AudioListenerTagComponent; AudioTagComponent; BoneTagComponent; CameraTagComponent;
    CubeCameraTagComponent; DirectionalLightTagComponent; GroupTagComponent;
    HemisphereLightProbeTagComponent; HemisphereLightTagComponent;
    ImmediateRenderObjectTagComponent; InstancedMeshTagComponent;
    LightProbeTagComponent; LightTagComponent; LineSegmentsTagComponent;
    LineTagComponent; LODTagComponent; MeshTagComponent;
    OrthographicCameraTagComponent; PerspectiveCameraTagComponent;
    PointLightTagComponent; PointsTagComponent; PositionalAudioTagComponent;
    RectAreaLightTagComponent; SceneTagComponent; SkinnedMeshTagComponent;
    SpotLightTagComponent; SpriteTagComponent ].

(** Modelled from the spec: [Object3DTagComponents] and [SkyboxComponent]
    are not among the sources.  The detachment removes the components
    whose type is marked as an Object3D-subtype tag: the marker
    [isObject3DTagComponent] is on the tag classes declared in
    [Object3DTagComponents], and on no other class.  [SkyboxComponent] is
    declared in another module, among the components of the scene, from
    where the source imports it, and does not carry the marker. *)
Definition marks_tag_classes (C : ComponentType) : bool :=
  bool_decide (C ∈ tag_classes).


(** A sky dome and a mesh. *)
Definition sky_world : World := Eval vm_compute in
  engine_with
    [ (1, node_obj "Sky" [("isSky", VBool true)] []);
      (2, node_obj "Mesh" [("isMesh", VBool true)] []) ].




(** ** Definitions for the further properties *)


(** The store after the two calls of [remove] in
    [removeObject3DComponent]: on the scene root, then, when [unparent]
    is set, on the parent that the object has by then. *)
Definition detach_heap (h : gmap nat hobj) (scene l : loc) (unparent : bool)
  : gmap nat hobj :=
  let h1 := Object3D_remove h scene (VRef l) in
  if unparent then
    match get h1 (VRef l) "parent" with
    | VRef p => Object3D_remove h1 p (VRef l)
    | _ => h1
    end
  else h1.

(** The object is among the children of its parent only. *)
Definition listed_by_parent (h : gmap nat hobj) (l : loc) : Prop :=
  ∀ x, l ∈ children_of h x -> get h (VRef l) "parent" = VRef x.

(** The nodes that [traverse] visits from [l], in the order of the
    visits: the node, then the subtree of each child in turn. *)
Fixpoint preorder (h : gmap nat hobj) (fuel : nat) (l : loc) : list loc :=
  match fuel with
  | 0 => []
  | S fuel' => l :: concat (map (preorder h fuel') (children_of h l))
  end.

(** The entities that the [entity] fields of the nodes name, in order. *)
Definition back_refs (h : gmap nat hobj) (xs : list loc) : list entity_id :=
  omap (λ x, match get h (VRef x) "entity" with
             | VEntity e => Some e
             | _ => None
             end) xs.


(** A group that the entity 10 holds, and a mesh that is not attached yet. *)
Definition family_world : World := Eval vm_compute in
  let w0 := with_entities
              (engine_with [(1, node_obj "Group" [("isGroup", VBool true)] []);
                            (2, node_obj "Mesh" [("isMesh", VBool true)] [])])
              [10; 11] in
  match addObject3DComponent 1 w0 10 (mkArgs (ObjectInstance 1) NoObjArgs None) with
  | Done w1 => w1
  | _ => w0
  end.

Definition family_args : attach_args := mkArgs (ObjectInstance 2) NoObjArgs (Some 10).

(** An engine with cascaded shadow maps, and a mesh with a material that
    has a lightmapped mesh below it. *)
Definition csm_world : World := Eval vm_compute in
  with_csm
    (engine_with
       [ (1, node_obj "Mesh" [("isMesh", VBool true); ("material", VRef 2)] [3]);
         (2, plain_obj [("opacity", VNum 1)]);
         (3, node_obj "Mesh" [("isMesh", VBool true); ("material", VRef 4);
                              ("parent", VRef 1)] []);
         (4, plain_obj [("userData", VRef 5)]);
         (5, plain_obj [("gltfExtensions", VRef 6)]);
         (6, plain_obj [("MOZ_lightmap", VRef 7)]);
         (7, plain_obj [("index", VNum 0)]) ])
    (Some []).

(** * Lemmas *)

(** ** Shapes, trees and descendants *)

Lemma same_shape_refl h : same_shape h h.
Proof. done. Qed.

Lemma same_shape_trans h1 h2 h3 :
  same_shape h1 h2 -> same_shape h2 h3 -> same_shape h1 h3.
Proof. intros H1 H2 l. by rewrite H1. Qed.

Lemma same_shape_sym h1 h2 : same_shape h1 h2 -> same_shape h2 h1.
Proof. intros H l. by rewrite H. Qed.

Lemma same_shape_lookup h h' l o :
  same_shape h h' -> h !! l = Some o ->
  ∃ o', h' !! l = Some o' ∧ is_node o' = is_node o ∧ children o' = children o.
Proof.
  intros H Hl. specialize (H l). rewrite Hl in H. simpl in H.
  destruct (h' !! l) as [o'|]; [|done]. exists o'. unfold shape in H.
  by inversion H.
Qed.

Lemma same_shape_set h subj k v : same_shape h (set h subj k v).
Proof.
  intros l. destruct subj; try done. unfold set.
  destruct (h !! l0) as [o|] eqn:E; [|done].
  destruct (decide (l0 = l)) as [->|Hne].
  - by rewrite lookup_insert_eq, E.
  - by rewrite lookup_insert_ne.
Qed.

Lemma node_at_node h l : node h l <-> node_at h (VRef l) = Some l.
Proof.
  unfold node, node_at. split.
  - intros (o & -> & ->). done.
  - destruct (h !! l) as [o|]; [|done]. destruct (is_node o) eqn:E; [|done]. eauto.
Qed.

Lemma node_at_inv h v l : node_at h v = Some l -> v = VRef l ∧ node h l.
Proof.
  destruct v; try done. simpl. intros H.
  destruct (h !! l0) as [o|] eqn:E; [|done].
  destruct (is_node o) eqn:E'; [|done]. inversion H; subst. split; [done|]. by exists o.
Qed.

Lemma same_shape_node h h' l : same_shape h h' -> node h l -> node h' l.
Proof.
  intros H (o & Hl & Hn). destruct (same_shape_lookup _ _ _ _ H Hl) as (o' & ? & ? & ?).
  exists o'. split; [done|congruence].
Qed.

Lemma same_shape_tree h h' d l : same_shape h h' -> tree h d l -> tree h' d l.
Proof.
  intros H. revert l. induction d as [|d IH]; [done|]. intros l (o & Hl & Hn & Hc).
  destruct (same_shape_lookup _ _ _ _ H Hl) as (o' & Hl' & Hn' & Hc').
  exists o'. split; [done|]. split; [congruence|]. rewrite Hc'.
  eapply Forall_impl; [exact Hc|]. auto.
Qed.


Lemma tree_mono h (d d' : nat) l : (d ≤ d')%nat -> tree h d l -> tree h d' l.
Proof.
  revert d' l. induction d as [|d IH]; [done|]. intros [|d'] l Hle; [lia|].
  intros (o & ? & ? & Hc). exists o. repeat split; try done.
  eapply Forall_impl; [exact Hc|]. intros c. apply IH. lia.
Qed.

Lemma tree_node h d l : tree h d l -> node h l.
Proof. destruct d; [done|]. intros (o & ? & ? & _). by exists o. Qed.

(** ** Reading after writing *)

Lemma get_set_ne_key h subj k v x k' :
  k ≠ k' -> get (set h subj k v) x k' = get h x k'.
Proof.
  intros Hk. destruct subj; try done. destruct x; try done. unfold get, set.
  destruct (h !! l) as [o|] eqn:E; [|done].
  destruct (decide (l = l0)) as [->|Hne].
  - rewrite lookup_insert_eq, E. unfold oget, oset. simpl. by rewrite lookup_insert_ne.
  - by rewrite lookup_insert_ne.
Qed.

Lemma get_set_ne_loc h l k v l' k' :
  l ≠ l' -> get (set h (VRef l) k v) (VRef l') k' = get h (VRef l') k'.
Proof.
  intros Hl. unfold get, set. destruct (h !! l) as [o|] eqn:E; [|done].
  by rewrite lookup_insert_ne.
Qed.

Lemma get_set_eq h l k v :
  is_Some (h !! l) -> get (set h (VRef l) k v) (VRef l) k = v.
Proof.
  intros [o E]. unfold get, set. rewrite E, lookup_insert_eq. unfold oget, oset. simpl.
  by rewrite lookup_insert_eq.
Qed.

(** ** The traversal *)

Lemma descendant_step h l x o c :
  descendant h l x -> h !! x = Some o -> c ∈ children o -> descendant h l c.
Proof.
  intros Hd Hx Hc. induction Hd as [l|l o' c' x Hl Hc' _ IH].
  - econstructor; [exact Hx|exact Hc|constructor].
  - econstructor; [exact Hl|exact Hc'|by apply IH].
Qed.

Lemma traverse_S fuel callback this w :
  traverse (S fuel) callback this w =
  match node_at (heap_of w) (VRef this) with
  | Some _ =>
      match heap_of (callback this w) !! this with
      | Some o => forM (traverse fuel callback) (children o) (callback this w)
      | None => TypeError
      end
  | None => TypeError
  end.
Proof. done. Qed.

Section traverse_spec.
Context (callback : loc -> World -> World).
Context (h0 : gmap nat hobj) (root : loc).
Context (Inv : World -> Prop) (Q : loc -> World -> Prop).
Hypothesis Inv_shape : ∀ w, Inv w -> same_shape h0 (heap_of w).
Hypothesis callback_step : ∀ x w, Inv w -> descendant h0 root x ->
  node (heap_of w) x -> Inv (callback x w) ∧ Q x (callback x w).
Hypothesis Q_stable : ∀ x y w, Inv w -> descendant h0 root y ->
  node (heap_of w) y -> Q x w -> Q x (callback y w).

Lemma traverse_spec (fuel : nat) : ∀ (d : nat) l w,
  tree h0 d l -> (d ≤ fuel)%nat -> Inv w -> descendant h0 root l ->
  ∃ w', traverse fuel callback l w = Done w' ∧ Inv w'
        ∧ (∀ x, descendant h0 l x -> Q x w')
        ∧ (∀ x, Q x w -> Q x w').
Proof.
  induction fuel as [|fuel IH]; intros d l w Ht Hd HI Hroot.
  { destruct d; [done|lia]. }
  destruct d as [|d]; [done|]. destruct Ht as (o & Hl & Hn & Hc).
  pose proof (Inv_shape w HI) as Hs.
  destruct (same_shape_lookup _ _ _ _ Hs Hl) as (ow & Hlw & Hnw & Hcw).
  assert (Hnode : node (heap_of w) l) by (exists ow; split; [done|congruence]).
  destruct (callback_step l w HI Hroot Hnode) as (HI1 & HQ1).
  pose proof (Inv_shape _ HI1) as Hs1.
  destruct (same_shape_lookup _ _ _ _ Hs1 Hl) as (o1 & Hl1 & _ & Hc1).
  apply node_at_node in Hnode as Hnat. rewrite traverse_S, Hnat, Hl1, Hc1.
  assert (Hdf : (d ≤ fuel)%nat) by lia.
  assert (Hkids : ∀ cs w1, Forall (tree h0 d) cs ->
    Forall (descendant h0 root) cs -> Inv w1 ->
    ∃ w', forM (traverse fuel callback) cs w1 = Done w' ∧ Inv w'
          ∧ (∀ c x, c ∈ cs -> descendant h0 c x -> Q x w')
          ∧ (∀ x, Q x w1 -> Q x w')).
  { clear -IH Hdf. intros cs. induction cs as [|c cs IHcs]; intros w1 Hcs Hrs HI1.
    - exists w1. repeat split; try done. intros c x Hin. inversion Hin.
    - inversion Hcs as [|? ? Hc Hcs']; subst. inversion Hrs as [|? ? Hr Hrs']; subst.
      destruct (IH d c w1 Hc Hdf HI1 Hr) as (w2 & E2 & HI2 & Hd2 & Hq2).
      destruct (IHcs w2 Hcs' Hrs' HI2) as (w3 & E3 & HI3 & Hd3 & Hq3).
      exists w3. simpl. rewrite E2. simpl. split; [done|]. split; [done|].
      split; [|by auto].
      intros c' x Hin Hdesc. apply elem_of_cons in Hin as [->|Hin]; [by auto|].
      by eapply Hd3. }
  destruct (Hkids (children o) (callback l w)) as (w' & E & HI' & Hd' & Hq'); [done| |done|].
  { apply Forall_forall. intros c Hin. by eapply descendant_step. }
  exists w'. split; [done|]. split; [done|]. split.
  - intros x Hx. inversion Hx as [|? o0 c ? Hl0 Hin Hcx]; subst; [by auto|].
    rewrite Hl in Hl0. inversion Hl0; subst. by eapply Hd'.
  - intros x Hq. apply Hq'. by apply Q_stable.
Qed.
End traverse_spec.

(** ** Components of an entity *)

Lemma elem_of_comp_insert C v l C' :
  C' ∈ (comp_insert C v l).*1 <-> C' = C ∨ C' ∈ l.*1.
Proof.
  induction l as [|[C0 v0] l IH]; simpl.
  - rewrite list_elem_of_singleton. set_solver.
  - case_decide; simpl; rewrite !elem_of_cons; [subst; tauto|rewrite IH; tauto].
Qed.



Lemma comp_lookup_None C l : comp_lookup C l = None <-> C ∉ l.*1.
Proof.
  induction l as [|[C0 v0] l IH]; simpl.
  - split; [intros _; apply not_elem_of_nil|done].
  - rewrite not_elem_of_cons. case_decide; subst; [split; [done|tauto]|].
    rewrite IH. split; [by auto|tauto].
Qed.

Lemma comp_lookup_Some C l : is_Some (comp_lookup C l) <-> C ∈ l.*1.
Proof.
  rewrite <-not_eq_None_Some, comp_lookup_None.
  destruct (decide (C ∈ l.*1)); tauto.
Qed.


Lemma elem_of_comp_remove_ne C l C' :
  C ≠ C' -> C' ∈ (comp_remove C l).*1 <-> C' ∈ l.*1.
Proof.
  intros Hne. induction l as [|[C0 v0] l IH]; simpl; [done|].
  case_decide; simpl; rewrite !elem_of_cons; [subst|rewrite IH]; naive_solver.
Qed.

Lemma elem_of_comp_remove C l C' :
  C' ∈ (comp_remove C l).*1 -> C' ∈ l.*1.
Proof.
  induction l as [|[C0 v0] l IH]; simpl; [done|].
  case_decide; simpl; rewrite !elem_of_cons; naive_solver.
Qed.

Lemma NoDup_comp_remove C l : NoDup l.*1 -> NoDup (comp_remove C l).*1.
Proof.
  induction l as [|[C0 v0] l IH]; simpl; intros Hnd; [done|].
  apply NoDup_cons in Hnd as [Hni Hnd]. case_decide; simpl; [done|].
  apply NoDup_cons. split; [|by auto]. intros Hin. by apply elem_of_comp_remove in Hin.
Qed.

Lemma not_elem_of_comp_remove C l : NoDup l.*1 -> C ∉ (comp_remove C l).*1.
Proof.
  induction l as [|[C0 v0] l IH]; simpl; intros Hnd; [apply not_elem_of_nil|].
  apply NoDup_cons in Hnd as [Hni Hnd]. case_decide; simpl; subst; [done|].
  apply not_elem_of_cons. split; [done|by auto].
Qed.

Lemma comp_lookup_remove_ne C l C' :
  C ≠ C' -> comp_lookup C' (comp_remove C l) = comp_lookup C' l.
Proof.
  intros Hne. induction l as [|[C0 v0] l IH]; simpl; [done|].
  case_decide; simpl; subst.
  - by rewrite decide_False.
  - case_decide; [done|apply IH].
Qed.

Lemma length_comp_remove C l :
  C ∈ l.*1 -> S (length (comp_remove C l)) = length l.
Proof.
  induction l as [|[C0 v0] l IH]; simpl; [by intros ?%elem_of_nil|].
  intros Hin. case_decide; simpl; [done|].
  apply elem_of_cons in Hin as [?|Hin]; [by subst|]. by rewrite IH.
Qed.

(** ** The ECS functions and the state *)

Lemma ent_addComponent w e C v :
  ent (addComponent w e C v) e = mkEntity (comp_insert C v (components (ent w e))).
Proof. unfold ent, addComponent. simpl. by rewrite lookup_insert_eq. Qed.


Lemma ent_removeComponent w e C :
  ent (removeComponent w e C) e = mkEntity (comp_remove C (components (ent w e))).
Proof. unfold ent, removeComponent. simpl. by rewrite lookup_insert_eq. Qed.

Lemma ent_removeComponent_ne w e C e' :
  e ≠ e' -> ent (removeComponent w e C) e' = ent w e'.
Proof. intros. unfold ent, removeComponent. simpl. by rewrite lookup_insert_ne. Qed.







(** ** What a step leaves alone *)

Lemma frame_except_refl ks h : frame_except ks h h.
Proof. done. Qed.

Lemma frame_except_trans ks h1 h2 h3 :
  frame_except ks h1 h2 -> frame_except ks h2 h3 -> frame_except ks h1 h3.
Proof. intros H1 H2 x k Hk. rewrite H2, H1; done. Qed.

Lemma frame_except_weaken ks ks' h h' :
  ks ⊆ ks' -> frame_except ks h h' -> frame_except ks' h h'.
Proof. intros Hs H x k Hk. apply H. set_solver. Qed.

Lemma frame_except_set ks h subj k v :
  k ∈ ks -> frame_except ks h (set h subj k v).
Proof. intros Hk x k' Hk'. apply get_set_ne_key. set_solver. Qed.

Lemma same_ecs_refl w : same_ecs w w.
Proof. done. Qed.


(** ** The shadow policy of the traversal *)

(** Membership of a given key in a given list of keys. *)
Ltac solve_key := by (apply (bool_decide_unpack _); vm_compute).














(** ** [Object3D.remove] and [Object3D.add] on the store *)


Lemma same_nodes_trans h1 h2 h3 :
  same_nodes h1 h2 -> same_nodes h2 h3 -> same_nodes h1 h3.
Proof. intros H1 H2 l. by rewrite H1. Qed.

Lemma same_shape_nodes h h' : same_shape h h' -> same_nodes h h'.
Proof.
  intros H l. specialize (H l).
  destruct (h !! l), (h' !! l); simpl in *; try done. unfold shape in H. congruence.
Qed.

Lemma same_nodes_node h h' l : same_nodes h h' -> node h l -> node h' l.
Proof.
  intros H (o & Hl & Hn). specialize (H l). rewrite Hl in H. simpl in H.
  destruct (h' !! l) as [o'|] eqn:E; [|done]. exists o'. simpl in H. split; [done|congruence].
Qed.

Lemma same_nodes_node_at h h' v :
  same_nodes h h' -> node_at h' v = node_at h v.
Proof.
  intros H. destruct v; try done. simpl. specialize (H l).
  destruct (h !! l), (h' !! l); simpl in *; try done. by inversion H.
Qed.

Lemma same_nodes_is_Some h h' l : same_nodes h h' -> is_Some (h !! l) -> is_Some (h' !! l).
Proof.
  intros H [o Ho]. specialize (H l). rewrite Ho in H.
  destruct (h' !! l); [eauto|done].
Qed.

Lemma same_nodes_set_children h l o c :
  h !! l = Some o -> same_nodes h (<[l := set_children o c]> h).
Proof.
  intros Hl x. destruct (decide (l = x)) as [->|Hne].
  - by rewrite lookup_insert_eq, Hl.
  - by rewrite lookup_insert_ne.
Qed.

Lemma get_set_children h l o c x k :
  h !! l = Some o -> get (<[l := set_children o c]> h) x k = get h x k.
Proof.
  intros Hl. destruct x; try done. unfold get. destruct (decide (l = l0)) as [->|Hne].
  - by rewrite lookup_insert_eq, Hl.
  - by rewrite lookup_insert_ne.
Qed.

Lemma Object3D_remove_nodes h this object :
  same_nodes h (Object3D_remove h this object).
Proof.
  unfold Object3D_remove. destruct object; try done.
  destruct (h !! this) as [p|] eqn:Hp; [|done]. case_bool_decide; [|done].
  set (h1 := set h (VRef l) "parent" VNull).
  assert (H1 : same_nodes h h1) by apply same_shape_nodes, same_shape_set.
  destruct (h1 !! this) as [p1|] eqn:Hp1; [|done].
  eapply same_nodes_trans; [exact H1|]. by apply same_nodes_set_children.
Qed.

Lemma Object3D_remove_frame h this object :
  frame_except parent_key h (Object3D_remove h this object).
Proof.
  unfold Object3D_remove. destruct object; try apply frame_except_refl.
  destruct (h !! this) as [p|] eqn:Hp; [|apply frame_except_refl].
  case_bool_decide; [|apply frame_except_refl].
  set (h1 := set h (VRef l) "parent" VNull).
  destruct (h1 !! this) as [p1|] eqn:Hp1.
  - intros x k Hk. rewrite get_set_children by done.
    apply get_set_ne_key. intros <-. apply Hk. solve_key.
  - apply frame_except_set. solve_key.
Qed.

(** The [parent] of another object is not written. *)
Lemma Object3D_remove_parent_other h this l x :
  x ≠ l -> get (Object3D_remove h this (VRef l)) (VRef x) "parent" = get h (VRef x) "parent".
Proof.
  intros Hne. unfold Object3D_remove.
  destruct (h !! this) as [p|] eqn:Hp; [|done]. case_bool_decide; [|done].
  set (h1 := set h (VRef l) "parent" VNull).
  destruct (h1 !! this) as [p1|] eqn:Hp1.
  - rewrite get_set_children by done. by apply get_set_ne_loc.
  - by apply get_set_ne_loc.
Qed.

Lemma Object3D_remove_parent h this l :
  get (Object3D_remove h this (VRef l)) (VRef l) "parent" = VNull
  ∨ get (Object3D_remove h this (VRef l)) (VRef l) "parent" = get h (VRef l) "parent".
Proof.
  unfold Object3D_remove.
  destruct (h !! this) as [p|] eqn:Hp; [|by right]. case_bool_decide; [|by right].
  set (h1 := set h (VRef l) "parent" VNull).
  destruct (h !! l) as [o|] eqn:Hl.
  - left. destruct (h1 !! this) as [p1|] eqn:Hp1.
    + rewrite get_set_children by done. apply get_set_eq. eauto.
    + apply get_set_eq. eauto.
  - right. assert (Eh : h1 = h) by (unfold h1, set; by rewrite Hl).
    rewrite Eh, Hp. by rewrite get_set_children.
Qed.

Lemma children_of_set h subj k v x : children_of (set h subj k v) x = children_of h x.
Proof.
  unfold children_of. pose proof (same_shape_set h subj k v x) as H.
  destruct (h !! x), (set h subj k v !! x); simpl in *; try done.
  unfold shape in H. congruence.
Qed.

Lemma children_of_same_shape h h' x : same_shape h h' -> children_of h' x = children_of h x.
Proof.
  intros H. unfold children_of. specialize (H x).
  destruct (h !! x), (h' !! x); simpl in *; try done. unfold shape in H. congruence.
Qed.

Lemma Object3D_remove_children h this l x :
  children_of (Object3D_remove h this (VRef l)) x =
  if decide (x = this) then remove_first l (children_of h x) else children_of h x.
Proof.
  unfold Object3D_remove.
  destruct (h !! this) as [p|] eqn:Hp.
  - case_bool_decide as Hin.
    + set (h1 := set h (VRef l) "parent" VNull).
      pose proof (same_shape_set h (VRef l) "parent" VNull) as Hs. fold h1 in Hs.
      destruct (same_shape_lookup _ _ _ _ Hs Hp) as (p1 & Hp1 & _ & Hc1).
      rewrite Hp1. unfold children_of at 1. case_decide as Hx.
      * subst x. rewrite lookup_insert_eq. simpl. rewrite Hc1.
        unfold children_of. by rewrite Hp.
      * rewrite lookup_insert_ne by done. fold (children_of h1 x).
        apply children_of_same_shape. done.
    + case_decide as Hx; [|done]. subst x. unfold children_of. rewrite Hp.
      clear -Hin. induction (children p) as [|c cs IH]; [done|]. simpl.
      apply not_elem_of_cons in Hin as [Hne Hin]. rewrite decide_False by done.
      by rewrite <-IH.
  - case_decide as Hx; [|done]. subst. unfold children_of. by rewrite Hp.
Qed.

Lemma remove_first_subseteq (l : nat) ls : remove_first l ls ⊆ ls.
Proof.
  induction ls as [|x ls IH]; [done|]. simpl. case_decide; set_solver.
Qed.


Lemma call_remove_Done w recv object :
  is_Some (node_at (heap_of w) recv) ->
  ∃ this, node_at (heap_of w) recv = Some this
    ∧ call_remove w recv object
      = Done (with_heap w (Object3D_remove (heap_of w) this object)).
Proof. intros [this H]. exists this. unfold call_remove. by rewrite H. Qed.




(** ** Dot-separated paths, as the specification reads them *)

Lemma split_dots_nonempty s : split_dots s ≠ [].
Proof. destruct s as [|c s]; simpl; [done|]. repeat case_match; done. Qed.

Lemma take_line_id s : has_line_terminator s = false -> take_line s = s.
Proof.
  induction s as [|c s IH]; simpl; [done|]. intros H.
  apply orb_false_iff in H as [-> H]. by rewrite IH.
Qed.

Lemma span_property_split s p r :
  span_property s = (p, r) ->
  split_dots s = match r with
                 | EmptyString => [p]
                 | String _ r' => p :: split_dots r'
                 end
  ∧ has_line_terminator r = false ∨ has_line_terminator s = true.
Proof.
  revert p r. induction s as [|c s IH]; simpl; intros p r H.
  - inversion H; subst. by left.
  - destruct (is_dot c) eqn:Hd.
    + inversion H; subst. simpl.
      destruct (has_line_terminator s) eqn:E; [right; apply orb_true_r|left].
      split; [done|]. unfold is_dot in Hd. apply Ascii.eqb_eq in Hd. subst c. done.
    + destruct (span_property s) as [p' r'] eqn:E. inversion H; subst.
      destruct (IH _ _ eq_refl) as [[Hs Hr]|Hr]; [|right; rewrite Hr; apply orb_true_r].
      left. split; [|done]. rewrite Hs. by destruct r.
Qed.

(** On a valid path the match gives the first segment and the rest. *)
Lemma match_path_valid path seg segs :
  valid_path path -> split_dots path = seg :: segs ->
  match segs with
  | [] => match_path path = Some (seg, None)
  | _ :: _ => ∃ path', match_path path = Some (seg, Some path')
                ∧ path' ≠ EmptyString ∧ split_dots path' = segs ∧ valid_path path'
  end.
Proof.
  intros [Hne Hlt] Hsp. unfold match_path. rewrite Hsp in Hne.
  apply Forall_cons in Hne as [Hseg Hne].
  destruct path as [|c s]; [simpl in Hsp; congruence|].
  assert (Hc : is_dot c = false).
  { destruct (is_dot c) eqn:Hd; [|done]. simpl in Hsp. rewrite Hd in Hsp. congruence. }
  simpl skip_dots. rewrite Hc.
  destruct (span_property (String c s)) as [p r] eqn:E.
  destruct (span_property_split _ _ _ E) as [[Hs Hr]|Hr]; [|congruence].
  rewrite Hsp in Hs. destruct r as [|d r].
  - inversion Hs; subst. done.
  - inversion Hs; subst. pose proof (split_dots_nonempty r) as Hnon.
    destruct (split_dots r) as [|s1 ss] eqn:Er; [done|].
    simpl in Hr. apply orb_false_iff in Hr as [_ Hr].
    exists r. rewrite take_line_id by done. split; [done|].
    split; [|split; [done|split; [by rewrite Er|done]]].
    intros ->. simpl in Er. inversion Er; subst. by inversion Hne.
Qed.


Lemma applyDeepValue_eq w subj path v :
  applyDeepValue w subj path v =
    if truthy subj then
      match match_path path with
      | None => w
      | Some (property, nextPath) =>
          if String.eqb property "" || is_undefined (get (heap_of w) subj property)
          then w
          else match nextPath_truthy nextPath with
               | Some np => applyDeepValue w (get (heap_of w) subj property) np v
               | None =>
                   if instanceof_Color (get (heap_of w) subj property)
                      && is_number_or_string v
                   then with_heap w (set (heap_of w) subj property (new_Color v))
                   else with_heap w (set (heap_of w) subj property v)
               end
      end
    else console_warn w "subj is not an object".
Proof.
  funelim (applyDeepValue w subj path v).
  all: clear Heqcall.
  all: repeat match goal with
       | H : truthy _ = _ |- _ => rewrite H
       | H : match_path _ = _ |- _ => rewrite H
       | H : (_ || _) = _ |- _ => rewrite H
       | H : nextPath_truthy _ = _ |- _ => rewrite H
       end; done.
Qed.






(** ** The property map leaves the shape of the store and the ECS alone *)

Lemma same_ecs_with_heap w h : same_ecs w (with_heap w h).
Proof. done. Qed.




(** ** [Object3D.add] *)


Lemma node_is_Some h l : node h l -> is_Some (h !! l).
Proof. intros (o & -> & _). eauto. Qed.



(** ** When [addObject3DComponent] runs to its end *)



Lemma ent_same_ents w w' e : ents w' = ents w -> ent w' e = ent w e.
Proof. unfold ent. by intros ->. Qed.




Lemma frame_parent_link h h' : frame_except parent_key h h' -> frame_except link_keys h h'.
Proof. apply frame_except_weaken. intros k. unfold parent_key, link_keys. set_solver. Qed.






#[global] Arguments Object3D_remove : simpl never.
#[global] Arguments node_at : simpl never.
#[global] Arguments call_remove : simpl never.
#[global] Arguments removeComponent : simpl never.

(** ** The loop that removes the tags *)

Lemma comp_remove_lookup_shift C l : ∀ (j k : nat),
  l.*1 !! j = Some C -> (j ≤ k)%nat ->
  (comp_remove C l).*1 !! k = l.*1 !! S k.
Proof.
  induction l as [|[C0 v0] l IH]; intros j k Hj Hjk; [done|]. simpl.
  case_decide as HC; [done|]. destruct j as [|j]; [simpl in Hj; congruence|].
  destruct k as [|k]; [lia|]. simpl in *. apply (IH j); [done|lia].
Qed.

Section Detach_loop.
Context (marker : ComponentType -> bool).

Lemma remove_tags_loop_run (n : nat) : ∀ w e,
  (n ≤ length (componentTypes (ent w e)))%nat ->
  (∀ (i : nat) C, (n ≤ i)%nat -> componentTypes (ent w e) !! i = Some C -> marker C = false) ->
  ∃ w', remove_tags_loop marker n w e = Done w'
    ∧ same_but_ents w w'
    ∧ (∀ e', e' ≠ e -> ent w' e' = ent w e')
    ∧ (∀ C, C ∈ componentTypes (ent w' e)
            <-> C ∈ componentTypes (ent w e) ∧ marker C = false)
    ∧ (∀ C, marker C = false ->
         comp_lookup C (components (ent w' e)) = comp_lookup C (components (ent w e)))
    ∧ (NoDup (componentTypes (ent w e)) -> NoDup (componentTypes (ent w' e))).
Proof.
  induction n as [|i IH]; intros w e Hlen Hrest.
  - exists w. split; [done|]. split; [done|]. split; [done|]. split; [|done].
    intros C. split; [|tauto]. intros Hin. split; [done|].
    apply list_elem_of_lookup in Hin as [k Hk]. apply (Hrest k); [lia|done].
  - simpl. destruct (componentTypes (ent w e) !! i) as [C|] eqn:Hi; cycle 1.
    { apply lookup_ge_None in Hi. lia. }
    destruct (marker C) eqn:Hm.
    + set (w1 := removeComponent w e C).
      assert (Ht1 : componentTypes (ent w1 e) = (comp_remove C (components (ent w e))).*1).
      { unfold w1. by rewrite ent_removeComponent. }
      assert (HinC : C ∈ componentTypes (ent w e)) by (apply list_elem_of_lookup; eauto).
      destruct (IH w1 e) as (w' & E & Hsame & Hoth & Hiff & Hlk & Hnd).
      { rewrite Ht1. pose proof (length_comp_remove C (components (ent w e)) HinC) as Hl.
        unfold componentTypes in Hlen. rewrite !length_fmap in *. lia. }
      { intros k C' Hk Hk'. rewrite Ht1 in Hk'.
        rewrite (comp_remove_lookup_shift C _ i k) in Hk' by done.
        apply (Hrest (S k)); [lia|done]. }
      exists w'. split; [done|]. split; [done|]. split.
      { intros e' Hne. rewrite Hoth by done. unfold w1. by apply ent_removeComponent_ne. }
      split.
      { intros C'. rewrite Hiff, Ht1. split.
        - intros [Hin Hm']. split; [|done]. by apply elem_of_comp_remove in Hin.
        - intros [Hin Hm']. split; [|done]. apply elem_of_comp_remove_ne; [congruence|done]. }
      split.
      { intros C' Hm'. rewrite Hlk by done. unfold w1. rewrite ent_removeComponent. simpl.
        apply comp_lookup_remove_ne. congruence. }
      intros Hnd0. apply Hnd. rewrite Ht1. by apply NoDup_comp_remove.
    + destruct (IH w e) as (w' & E & Hrest'); [lia| |by exists w'].
      intros k C' Hk Hk'. destruct (decide (k = i)) as [->|Hne]; [congruence|].
      apply (Hrest k); [lia|done].
Qed.

Lemma call_remove_node w this object :
  node (heap_of w) this ->
  call_remove w (VRef this) object
  = Done (with_heap w (Object3D_remove (heap_of w) this object)).
Proof. intros H%node_at_node. unfold call_remove. by rewrite H. Qed.


(** The run of [removeObject3DComponent] on an entity whose component
    holds the object [l]. *)
Lemma detach_run w e unparent l :
  getComponent w e Object3DComponent true = Some (VRef l) ->
  is_Some (heap_of w !! l) ->
  node (heap_of w) (scene w) ->
  parent_detachable (heap_of w) l ->
  ∃ w', removeObject3DComponent marker w e unparent = Done w'
    ∧ scene w' = scene w ∧ entities w' = entities w
    ∧ entitiesToRemove w' = entitiesToRemove w
    ∧ (∀ e', e' ≠ e -> ent w' e' = ent w e')
    ∧ (∀ C, C ∈ componentTypes (ent w' e)
            <-> C ∈ (comp_remove Object3DComponent (components (ent w e))).*1
                ∧ marker C = false)
    ∧ (NoDup (componentTypes (ent w e)) -> NoDup (componentTypes (ent w' e)))
    ∧ same_nodes (heap_of w) (heap_of w')
    ∧ frame_except link_keys (heap_of w) (heap_of w')
    ∧ get (heap_of w') (VRef l) "entity" = VNull
    ∧ (∀ x, x ≠ l -> get (heap_of w') (VRef x) "parent" = get (heap_of w) (VRef x) "parent")
    ∧ (get (heap_of w') (VRef l) "parent" = VNull
       ∨ get (heap_of w') (VRef l) "parent" = get (heap_of w) (VRef l) "parent")
    ∧ (∀ x, children_of (heap_of w') x ⊆ children_of (heap_of w) x)
    ∧ children_of (heap_of w') (scene w)
      ⊆ remove_first l (children_of (heap_of w) (scene w)).
Proof.
  intros Hget Hl Hsc Hpar.
  apply node_at_node in Hsc as Hsc'.
  set (h1 := Object3D_remove (heap_of w) (scene w) (VRef l)).
  pose proof (Object3D_remove_nodes (heap_of w) (scene w) (VRef l)) as Hn1. fold h1 in Hn1.
  pose proof (Object3D_remove_frame (heap_of w) (scene w) (VRef l)) as Hf1. fold h1 in Hf1.
  pose proof (Object3D_remove_parent (heap_of w) (scene w) l) as Hp1. fold h1 in Hp1.
  (* the second removal, from the parent *)
  set (w1 := with_heap w h1).
  assert (H2 : ∃ h2,
    (if unparent then
       if truthy (get h1 (VRef l) "parent")
       then call_remove w1 (get h1 (VRef l) "parent") (VRef l)
       else Done w1
     else Done w1) = Done (with_heap w h2)
    ∧ (h2 = h1 ∨ ∃ p, h2 = Object3D_remove h1 p (VRef l))).
  { destruct unparent; [|exists h1; by split; [|left]].
    destruct (truthy (get h1 (VRef l) "parent")) eqn:Ht;
      [|exists h1; by split; [|left]].
    destruct Hpar as [Hfalsy|(p & Hp & Hnp)].
    - destruct Hp1 as [Hp1|Hp1]; rewrite Hp1 in Ht; [done|congruence].
    - destruct Hp1 as [Hp1|Hp1]; rewrite Hp1 in Ht; [done|].
      rewrite Hp1, Hp. unfold call_remove.
      change (heap_of w1) with h1.
      assert (Hnat : node_at h1 (VRef p) = Some p).
      { apply node_at_node. by eapply same_nodes_node. }
      rewrite Hnat. exists (Object3D_remove h1 p (VRef l)). split; [done|]. right. eauto. }
  destruct H2 as (h2 & E2 & Hh2).
  assert (Hn2 : same_nodes (heap_of w) h2).
  { destruct Hh2 as [->|(p & ->)]; [done|].
    eapply same_nodes_trans; [exact Hn1|]. apply Object3D_remove_nodes. }
  assert (Hf2 : frame_except parent_key (heap_of w) h2).
  { destruct Hh2 as [->|(p & ->)]; [done|].
    eapply frame_except_trans; [exact Hf1|]. apply Object3D_remove_frame. }
  assert (Hpo2 : ∀ x, x ≠ l -> get h2 (VRef x) "parent" = get (heap_of w) (VRef x) "parent").
  { intros x Hx. destruct Hh2 as [->|(p & ->)].
    - by apply Object3D_remove_parent_other.
    - rewrite Object3D_remove_parent_other by done. by apply Object3D_remove_parent_other. }
  assert (Hp2 : get h2 (VRef l) "parent" = VNull
                ∨ get h2 (VRef l) "parent" = get (heap_of w) (VRef l) "parent").
  { destruct Hh2 as [->|(p & ->)]; [done|].
    destruct (Object3D_remove_parent h1 p l) as [E|E]; [by left|]. by rewrite E. }
  assert (Hc2 : ∀ x, children_of h2 x ⊆ children_of h1 x).
  { intros x. destruct Hh2 as [->|(p & ->)]; [done|].
    rewrite Object3D_remove_children. case_decide; [apply remove_first_subseteq|done]. }
  assert (Hc1 : ∀ x, children_of h1 x ⊆ children_of (heap_of w) x).
  { intros x. unfold h1. rewrite Object3D_remove_children.
    case_decide; [apply remove_first_subseteq|done]. }
  set (w2 := with_heap w h2).
  set (w3 := removeComponent w2 e Object3DComponent).
  assert (Ht3 : componentTypes (ent w3 e)
                = (comp_remove Object3DComponent (components (ent w e))).*1).
  { unfold w3. by rewrite ent_removeComponent. }
  destruct (remove_tags_loop_run (length (componentTypes (ent w3 e))) w3 e)
    as (w4 & Eloop & Hsame & Hoth & Hiff & _ & Hnd); [lia| |].
  { intros i C Hi Hlk. apply lookup_lt_Some in Hlk. lia. }
  destruct Hsame as (Hh4 & Hsc4 & _ & _ & Hen4 & Hrm4).
  set (h' := set (heap_of w4) (VRef l) "entity" VNull).
  exists (with_heap w4 h'). split.
  { unfold removeObject3DComponent. rewrite Hget. simpl.
    rewrite (call_remove_node w (scene w)) by done. simpl. fold h1 w1.
    rewrite E2. simpl. fold w2 w3. rewrite Eloop. done. }
  simpl.
  assert (Eh' : h' = set h2 (VRef l) "entity" VNull) by (unfold h'; by rewrite Hh4).
  clearbody h'. subst h'. set (h' := set h2 (VRef l) "entity" VNull).
  split; [by rewrite Hsc4|]. split; [by rewrite Hen4|]. split; [by rewrite Hrm4|].
  split.
  { intros e' Hne. unfold ent at 1. simpl. fold (ent w4 e'). rewrite Hoth by done.
    unfold w3. by rewrite ent_removeComponent_ne. }
  split.
  { intros C. unfold ent at 1. simpl. fold (ent w4 e). by rewrite Hiff, Ht3. }
  split.
  { intros Hnd0. unfold ent at 1. simpl. fold (ent w4 e). apply Hnd.
    rewrite Ht3. by apply NoDup_comp_remove. }
  split.
  { eapply same_nodes_trans; [exact Hn2|]. apply same_shape_nodes, same_shape_set. }
  split.
  { eapply frame_except_trans; [by apply frame_parent_link|].
    apply frame_except_set. solve_key. }
  split.
  { apply get_set_eq. by eapply same_nodes_is_Some. }
  split.
  { intros x Hx. unfold h'. rewrite get_set_ne_key by done. by apply Hpo2. }
  split.
  { unfold h'. by rewrite get_set_ne_key. }
  split.
  { intros x. unfold h'. rewrite children_of_set. etrans; [apply Hc2|apply Hc1]. }
  unfold h'. rewrite children_of_set. etrans; [apply Hc2|].
  unfold h1. rewrite Object3D_remove_children. by rewrite decide_True.
Qed.

End Detach_loop.

(** ** Cascading removal *)

Lemma removeEntity_removed w e fi : removed_as fi (removeEntity w e fi) e.
Proof.
  unfold removed_as, removeEntity. destruct fi; simpl.
  - rewrite list_elem_of_filter. tauto.
  - apply elem_of_app. right. by apply list_elem_of_singleton.
Qed.

Lemma removeEntity_removed_mono w e fi e' :
  removed_as fi w e' -> removed_as fi (removeEntity w e fi) e'.
Proof.
  unfold removed_as, removeEntity. destruct fi; simpl.
  - rewrite list_elem_of_filter. tauto.
  - intros H. apply elem_of_app. by left.
Qed.

Lemma removeEntity_alive w e fi e' :
  alive (removeEntity w e fi) e' <-> alive w e' ∧ e' ≠ e.
Proof.
  unfold alive, removeEntity. destruct fi; simpl.
  - rewrite list_elem_of_filter. tauto.
  - rewrite elem_of_app, list_elem_of_singleton. tauto.
Qed.

Lemma removeEntity_same w e fi :
  heap_of (removeEntity w e fi) = heap_of w ∧ scene (removeEntity w e fi) = scene w
  ∧ ents (removeEntity w e fi) = ents w ∧ csm (removeEntity w e fi) = csm w
  ∧ console (removeEntity w e fi) = console w.
Proof. unfold removeEntity. by destruct fi. Qed.

(** What [remove_callback] does, given the back-reference it reads. *)
Lemma remove_callback_unfold fi o w :
  remove_callback fi o w =
  with_heap (match get (heap_of w) (VRef o) "entity" with
             | VEntity e => removeEntity w e fi
             | _ => w
             end)
            (set (heap_of w) (VRef o) "entity" VNull).
Proof.
  unfold remove_callback. destruct (get (heap_of w) (VRef o) "entity"); try done.
  by destruct (removeEntity_same w e fi) as (-> & _).
Qed.

Lemma traverse_remove fuel fi w obj :
  tree (heap_of w) fuel obj ->
  ∃ w', traverse fuel (remove_callback fi) obj w = Done w'
    ∧ same_shape (heap_of w) (heap_of w')
    ∧ frame_except entity_key (heap_of w) (heap_of w')
    ∧ scene w' = scene w ∧ ents w' = ents w
    ∧ (∀ x, descendant (heap_of w) obj x ->
         get (heap_of w') (VRef x) "entity" = VNull
         ∧ ∀ e', get (heap_of w) (VRef x) "entity" = VEntity e' -> removed_as fi w' e')
    ∧ (∀ x, ¬ descendant (heap_of w) obj x ->
         get (heap_of w') (VRef x) "entity" = get (heap_of w) (VRef x) "entity")
    ∧ (∀ e', removed_as fi w e' -> removed_as fi w' e')
    ∧ (∀ e', alive w' e' -> alive w e')
    ∧ (∀ e', alive w e' ->
         (∀ x, descendant (heap_of w) obj x ->
               get (heap_of w) (VRef x) "entity" ≠ VEntity e') ->
         alive w' e').
Proof.
  intros Ht. set (h0 := heap_of w).
  pose (Inv := λ w1 : World,
    same_shape h0 (heap_of w1) ∧ frame_except entity_key h0 (heap_of w1)
    ∧ scene w1 = scene w ∧ ents w1 = ents w
    ∧ (∀ x, get (heap_of w1) (VRef x) "entity" = get h0 (VRef x) "entity"
            ∨ get (heap_of w1) (VRef x) "entity" = VNull)
    ∧ (∀ x, ¬ descendant h0 obj x ->
            get (heap_of w1) (VRef x) "entity" = get h0 (VRef x) "entity")
    ∧ (∀ x e', get h0 (VRef x) "entity" = VEntity e' ->
            get (heap_of w1) (VRef x) "entity" = VNull -> removed_as fi w1 e')
    ∧ (∀ e', removed_as fi w e' -> removed_as fi w1 e')
    ∧ (∀ e', alive w1 e' -> alive w e')
    ∧ (∀ e', alive w e' ->
         (∀ x, descendant h0 obj x -> get h0 (VRef x) "entity" ≠ VEntity e') ->
         alive w1 e')).
  pose (Q := λ (x : nat) (w1 : World), get (heap_of w1) (VRef x) "entity" = VNull).
  destruct (traverse_spec (remove_callback fi) h0 obj Inv Q) with
    (fuel := fuel) (d := fuel) (l := obj) (w := w)
    as (w' & E & (Hs & Hf & Hsc & Hen & Hdi & Hout & Hrm & Hmono & Hal & Hal') & Hd & _).
  - by intros w1 (Hs & _).
  - intros x w1 (Hs & Hf & Hsc & Hen & Hdi & Hout & Hrm & Hmono & Hal & Hal') Hx Hn.
    rewrite remove_callback_unfold.
    set (w1' := match get (heap_of w1) (VRef x) "entity" with
                | VEntity e => removeEntity w1 e fi
                | _ => w1
                end).
    assert (Hw1' : (w1' = w1 ∨ ∃ e, get (heap_of w1) (VRef x) "entity" = VEntity e
                                  ∧ w1' = removeEntity w1 e fi)).
    { unfold w1'. destruct (get (heap_of w1) (VRef x) "entity"); eauto. }
    assert (Hsame : scene w1' = scene w1 ∧ ents w1' = ents w1).
    { destruct Hw1' as [->|(e & _ & ->)]; [done|].
      by destruct (removeEntity_same w1 e fi) as (_ & -> & -> & _). }
    assert (Hmono1 : ∀ e', removed_as fi w1 e' -> removed_as fi w1' e').
    { intros e'. destruct Hw1' as [->|(e & _ & ->)]; [done|].
      apply removeEntity_removed_mono. }
    unfold Inv, Q. simpl.
    assert (Hex : is_Some (heap_of w1 !! x)) by (by apply node_is_Some).
    split; [|by apply get_set_eq].
    split; [eapply same_shape_trans; [exact Hs|apply same_shape_set]|].
    split; [eapply frame_except_trans; [exact Hf|apply frame_except_set; solve_key]|].
    split; [destruct Hsame; congruence|]. split; [destruct Hsame; congruence|].
    split.
    { intros y. destruct (decide (y = x)) as [->|Hne].
      - right. by apply get_set_eq.
      - rewrite get_set_ne_loc by done. apply Hdi. }
    split.
    { intros y Hy. rewrite get_set_ne_loc; [by apply Hout|]. by intros ->. }
    split.
    { intros y e' Hy0 Hy1. destruct (decide (y = x)) as [->|Hne].
      - destruct (Hdi x) as [Hd|Hd].
        + rewrite Hy0 in Hd. unfold w1'. rewrite Hd. apply removeEntity_removed.
        + apply Hmono1. by apply (Hrm x).
      - rewrite get_set_ne_loc in Hy1 by done. apply Hmono1. by apply (Hrm y). }
    split; [intros e' Hr0; apply Hmono1; by apply Hmono|].
    split.
    { intros e' Ha. apply Hal. destruct Hw1' as [->|(e & _ & ->)]; [done|].
      by apply removeEntity_alive in Ha as [Ha _]. }
    intros e' Ha Hno. specialize (Hal' e' Ha Hno).
    destruct Hw1' as [->|(e & He & ->)]; [done|].
    apply removeEntity_alive. split; [done|]. intros ->.
    destruct (Hdi x) as [Hd|Hd]; [|congruence]. rewrite Hd in He. by apply (Hno x).
  - intros x y w1 HI _ Hn HQ. rewrite remove_callback_unfold. unfold Q in *. simpl.
    destruct (decide (x = y)) as [->|Hne].
    + apply get_set_eq. by apply node_is_Some.
    + by rewrite get_set_ne_loc.
  - done.
  - lia.
  - unfold Inv. do 4 (split; [done|]). split; [by left|]. split; [done|].
    split; [intros x e' H1 H2; unfold h0 in *; congruence|]. done.
  - constructor.
  - exists w'. split; [done|]. split; [done|]. split; [done|]. split; [done|].
    split; [done|]. split; [|done].
    intros x Hx. split; [by apply Hd|]. intros e' He'. apply (Hrm x); [done|]. by apply Hd.
Qed.

(** * The properties of the behaviours *)

(** ** The tags that the attachment gives *)





Example skinned_mesh_attached :
  addObject3DComponent 1 skinned_mesh_world 7 (attach_instance 1)
  ≫= (λ w', Done (componentTypes (ent w' 7)))
  = Done [Object3DComponent; MeshTagComponent; SkinnedMeshTagComponent].
Proof. vm_compute. reflexivity. Qed.

(** ** The shadow policy of the attachment *)





(** ** The property map of the attachment *)






Lemma material_color_valid : valid_path "material.color".
Proof. split; [|reflexivity]. simpl. repeat constructor; discriminate. Defined.



Example material_color_applied :
  addObject3DComponent 1 coloured_world 7 coloured_args
  ≫= (λ w', Done (get (heap_of w') (VRef 2) "color", get (heap_of w') (VRef 2) "opacity"))
  = Done (VColor (ColorOfString "#fff"), VNum 0).
Proof. vm_compute. reflexivity. Qed.

(** A light that is asked to cast shadows keeps the value supplied. *)
Example light_castShadow_applied :
  addObject3DComponent 1 light_world 7
    (mkArgs (ObjectInstance 1) (ObjArgs [("castShadow", VBool true)]) None)
  ≫= (λ w', Done (get (heap_of w') (VRef 1) "castShadow"))
  = Done (VBool true).
Proof. vm_compute. reflexivity. Qed.

(** An entry whose field a later entry writes through another path. *)
Example later_entry_overwrites :
  addObject3DComponent 1 aliased_world 7
    (mkArgs (ObjectInstance 1)
       (ObjArgs [("material.opacity", VNum 5); ("customDepthMaterial.opacity", VNum 7)])
       None)
  ≫= (λ w', Done (get (heap_of w') (VRef 2) "opacity"))
  = Done (VNum 7).
Proof. vm_compute. reflexivity. Qed.

(** A path on two lines: its segments, cut at the dots, exist, and the
    field that they reach is left as it was; the path is read up to the
    line feed, and [opacity] is assigned. *)
Example path_on_two_lines :
  split_dots ("material.opacity" +:+ LF +:+ "q") = ["material"; "opacity" +:+ LF +:+ "q"]
  ∧ resolves (heap_of two_line_world) (VRef 1) ["material"; "opacity" +:+ LF +:+ "q"]
  ∧ (let w' := applyDeepValue two_line_world (VRef 1)
                 ("material.opacity" +:+ LF +:+ "q") (VNum 0) in
     get (heap_of w') (VRef 2) ("opacity" +:+ LF +:+ "q") = VNum 1
     ∧ get (heap_of w') (VRef 2) "opacity" = VNum 0).
Proof.
  split; [reflexivity|]. split.
  - split; [vm_compute; discriminate|]. split; [vm_compute; discriminate|exact I].
  - vm_compute. split; reflexivity.
Qed.


(** So does a path on two lines: the segment [opacity<LF>q] is missing
    from the material, and the opacity is assigned. *)
Example line_terminator_cuts_path :
  split_dots ("material.opacity" +:+ LF +:+ "q.x")
  = ["material"; "opacity" +:+ LF +:+ "q"; "x"]
  ∧ get (heap_of coloured_world) (VRef 2) ("opacity" +:+ LF +:+ "q") = VUndefined
  ∧ get (heap_of (applyDeepValue coloured_world (VRef 1)
                    ("material.opacity" +:+ LF +:+ "q.x") (VNum 0))) (VRef 2) "opacity"
    = VNum 0.
Proof. vm_compute. repeat split. Qed.

(** A path into a colour, and one into a string, leave the store: the
    code finds the red channel of the colour and the length of the
    string there. *)
Example paths_that_leave_the_store :
  stays_in_store (heap_of coloured_world) (VRef 1) "material.color.r" = false
  ∧ stays_in_store (heap_of coloured_world) (VRef 1) "type.length" = false
  ∧ stays_in_store (heap_of coloured_world) (VRef 1) "material.map.offset" = true.
Proof. vm_compute. repeat split. Qed.






(** ** The duplicated check of [getComponentTags] *)

(** On any other node the first [if] pushes nothing. *)
Lemma getComponentTags_not_positional h object3d :
  is_positional_audio h object3d = false ->
  getComponentTags h object3d = getComponentTags_chain h object3d.
Proof. intros H. unfold getComponentTags. by rewrite H. Qed.

(** C9: the duplicated positional-audio check is not dead code.  On an
    audio node with a panner the first [if] pushes the Positional Audio
    tag and the chain that follows pushes it again, so [getComponentTags]
    returns it twice, where the function without the first [if] returns
    it once. *)
Theorem positional_audio_pushed_twice h object3d :
  is_positional_audio h object3d = true ->
  getComponentTags h object3d
  = [PositionalAudioTagComponent; PositionalAudioTagComponent]
  ∧ getComponentTags_chain h object3d = [PositionalAudioTagComponent].
Proof.
  intros H. unfold getComponentTags, getComponentTags_chain. by rewrite H.
Qed.

Lemma positional_audio_pushed_twice_witness :
  is_positional_audio (heap_of positional_audio_world) (VRef 1) = true
  ∧ getComponentTags (heap_of positional_audio_world) (VRef 1)
    = [PositionalAudioTagComponent; PositionalAudioTagComponent]
  ∧ getComponentTags_chain (heap_of positional_audio_world) (VRef 1)
    = [PositionalAudioTagComponent].
Proof.
  split; [reflexivity|].
  exact (positional_audio_pushed_twice (heap_of positional_audio_world) (VRef 1) eq_refl).
Defined.

(** ** The detachment *)

(** C5: detaching an entity that holds no [Object3DComponent] is not a
    silent no-op.  [getComponent] gives [undefined], and reading [.value]
    from it raises before the test [object3d == undefined] is reached. *)
Theorem detach_without_component_throws marker w e unparent :
  getComponent w e Object3DComponent true = None ->
  removeObject3DComponent marker w e unparent = TypeError.
Proof. intros H. unfold removeObject3DComponent. by rewrite H. Qed.

Lemma detach_without_component_throws_witness :
  getComponent (engine_with []) 7 Object3DComponent true = None
  ∧ removeObject3DComponent marks_table_tags (engine_with []) 7 true = TypeError.
Proof.
  split; [reflexivity|].
  exact (detach_without_component_throws marks_table_tags (engine_with []) 7 true eq_refl).
Defined.

(** C6: after the detachment no node, no tag and no back-reference.
    For an entity whose [Object3DComponent] holds the object [l], in a
    state where the scene root is a node and the [parent] of [l] is falsy
    or a node, [removeObject3DComponent] returns; afterwards
    [getObject3D] gives [undefined], no component type of the entity
    carries the marker [isObject3DTagComponent], and the [entity] field of
    [l] is [null]. *)
Theorem detach_clears marker w e unparent l :
  getComponent w e Object3DComponent true = Some (VRef l) ->
  NoDup (componentTypes (ent w e)) ->
  is_Some (heap_of w !! l) ->
  node (heap_of w) (scene w) ->
  parent_detachable (heap_of w) l ->
  ∃ w', removeObject3DComponent marker w e unparent = Done w'
    ∧ getObject3D w' e = VUndefined
    ∧ (∀ C, C ∈ componentTypes (ent w' e) -> marker C = false)
    ∧ get (heap_of w') (VRef l) "entity" = VNull.
Proof.
  intros Hget Hnd Hl Hsc Hpar.
  destruct (detach_run marker w e unparent l Hget Hl Hsc Hpar)
    as (w' & Erun & _ & _ & _ & _ & Hiff & _ & _ & _ & Hent & _).
  exists w'. split; [done|]. split; [|split; [|done]].
  - unfold getObject3D, getComponent.
    destruct (comp_lookup Object3DComponent (components (ent w' e))) eqn:E; [|done].
    exfalso. assert (Hin : Object3DComponent ∈ componentTypes (ent w' e)).
    { apply comp_lookup_Some. rewrite E. eauto. }
    apply Hiff in Hin as [Hin _]. by apply not_elem_of_comp_remove in Hin.
  - intros C HC. by apply Hiff in HC as [_ HC].
Qed.

Lemma detach_clears_witness :
  (getComponent attached_world 7 Object3DComponent true = Some (VRef 1)
   ∧ NoDup (componentTypes (ent attached_world 7))
   ∧ is_Some (heap_of attached_world !! 1)
   ∧ node (heap_of attached_world) (scene attached_world)
   ∧ parent_detachable (heap_of attached_world) 1)
  ∧ ∃ w', removeObject3DComponent marks_table_tags attached_world 7 true = Done w'
    ∧ getObject3D w' 7 = VUndefined
    ∧ (∀ C, C ∈ componentTypes (ent w' 7) -> marks_table_tags C = false)
    ∧ get (heap_of w') (VRef 1) "entity" = VNull.
Proof.
  assert (H1 : getComponent attached_world 7 Object3DComponent true = Some (VRef 1))
    by reflexivity.
  assert (H2 : NoDup (componentTypes (ent attached_world 7))).
  { vm_compute. repeat constructor; rewrite ?elem_of_cons, ?elem_of_nil;
      intuition discriminate. }
  assert (H3 : is_Some (heap_of attached_world !! 1)) by (vm_compute; eauto).
  assert (H4 : node (heap_of attached_world) (scene attached_world)).
  { eexists. split; vm_compute; reflexivity. }
  assert (H5 : parent_detachable (heap_of attached_world) 1).
  { right. exists 0. split; [vm_compute; reflexivity|].
    eexists. split; vm_compute; reflexivity. }
  split; [by repeat split|].
  exact (detach_clears marks_table_tags attached_world 7 true 1 H1 H2 H3 H4 H5).
Defined.

(** ** The [TransformComponent] of a [GameObject] *)

Lemma GameObject_removeComponent_this w this C fi :
  (GameObject.removeComponent w this C fi).2 = this.
Proof. unfold GameObject.removeComponent. by case_decide. Qed.

Lemma GameObject_removeComponent_keeps w this C fi :
  TransformComponent ∈ componentTypes (ent w this) ->
  TransformComponent ∈ componentTypes (ent (GameObject.removeComponent w this C fi).1 this).
Proof.
  intros H. unfold GameObject.removeComponent. case_decide as HC; [|done]. simpl.
  unfold GameObject.removeComponentFromEntity. rewrite ent_removeComponent.
  unfold componentTypes. simpl. by apply elem_of_comp_remove_ne.
Qed.

Lemma GameObject_removeComponents_keeps calls : ∀ w this,
  TransformComponent ∈ componentTypes (ent w this) ->
  TransformComponent ∈ componentTypes (ent (GameObject.removeComponents w this calls) this).
Proof.
  induction calls as [|[C fi] calls IH]; intros w this H; [done|]. simpl.
  apply IH. by apply GameObject_removeComponent_keeps.
Qed.

(** C10: a game object keeps its [TransformComponent].  The constructor
    adds it; [removeComponent] called with [TransformComponent] changes
    nothing and returns the object; called with another type it returns
    the object, with that component removed and the others kept; hence
    after any sequence of calls of [removeComponent] the object still has
    its [TransformComponent]. *)
Theorem GameObject_keeps_transform w this C fi calls :
  NoDup (componentTypes (ent w this)) ->
  TransformComponent ∈ componentTypes (ent w this) ->
  TransformComponent
    ∈ componentTypes (ent (GameObject.constructor w).1 (GameObject.constructor w).2)
  ∧ GameObject.removeComponent w this TransformComponent fi = (w, this)
  ∧ (C ≠ TransformComponent ->
     (GameObject.removeComponent w this C fi).2 = this
     ∧ (C ∉ componentTypes (ent (GameObject.removeComponent w this C fi).1 this))
     ∧ ∀ C', C' ≠ C ->
         (C' ∈ componentTypes (ent (GameObject.removeComponent w this C fi).1 this)
          <-> C' ∈ componentTypes (ent w this)))
  ∧ TransformComponent
      ∈ componentTypes (ent (GameObject.removeComponents w this calls) this).
Proof.
  intros Hnd Hin. split; [|split; [|split]].
  - unfold GameObject.constructor, GameObject.addComponentToEntity. simpl.
    rewrite ent_addComponent. unfold componentTypes. simpl.
    apply elem_of_comp_insert. by left.
  - unfold GameObject.removeComponent. by rewrite decide_False by (by intros ?).
  - intros HC. unfold GameObject.removeComponent. rewrite decide_True by done. simpl.
    unfold GameObject.removeComponentFromEntity. rewrite ent_removeComponent.
    unfold componentTypes. simpl. split; [done|]. split.
    + by apply not_elem_of_comp_remove.
    + intros C' HC'. by apply elem_of_comp_remove_ne.
  - by apply GameObject_removeComponents_keeps.
Qed.

Lemma GameObject_keeps_transform_witness :
  (NoDup (componentTypes (ent game_object_world game_object))
   ∧ TransformComponent ∈ componentTypes (ent game_object_world game_object))
  ∧ TransformComponent
      ∈ componentTypes (ent (GameObject.constructor game_object_world).1
                            (GameObject.constructor game_object_world).2)
  ∧ GameObject.removeComponent game_object_world game_object TransformComponent None
    = (game_object_world, game_object)
  ∧ (MeshTagComponent ≠ TransformComponent ->
     (GameObject.removeComponent game_object_world game_object MeshTagComponent None).2
     = game_object
     ∧ (MeshTagComponent
          ∉ componentTypes
              (ent (GameObject.removeComponent game_object_world game_object
                      MeshTagComponent None).1 game_object))
     ∧ ∀ C', C' ≠ MeshTagComponent ->
         (C' ∈ componentTypes
                 (ent (GameObject.removeComponent game_object_world game_object
                         MeshTagComponent None).1 game_object)
          <-> C' ∈ componentTypes (ent game_object_world game_object)))
  ∧ TransformComponent
      ∈ componentTypes
          (ent (GameObject.removeComponents game_object_world game_object
                  [(TransformComponent, None); (MeshTagComponent, Some true);
                   (TransformComponent, Some false)]) game_object).
Proof.
  assert (Hnd : NoDup (componentTypes (ent game_object_world game_object))).
  { vm_compute. repeat constructor; rewrite ?elem_of_cons, ?elem_of_nil; intuition discriminate. }
  assert (Hin : TransformComponent ∈ componentTypes (ent game_object_world game_object)).
  { vm_compute. left. }
  split; [by split|].
  exact (GameObject_keeps_transform game_object_world game_object MeshTagComponent None
           [(TransformComponent, None); (MeshTagComponent, Some true);
            (TransformComponent, Some false)] Hnd Hin).
Defined.

(** ** Attach, detach, attach *)

Lemma elem_of_concat {A} (x : A) (ls : list (list A)) :
  x ∈ concat ls <-> ∃ l, l ∈ ls ∧ x ∈ l.
Proof.
  rewrite list_elem_of_In, in_concat. split.
  - intros (l & Hl & Hx). exists l. by rewrite !list_elem_of_In.
  - intros (l & Hl & Hx). exists l. by rewrite <- !list_elem_of_In.
Qed.

Lemma first_applicable_range h o group C :
  C ∈ first_applicable h o group -> C ∈ group.*2.
Proof.
  induction group as [|[t C'] group IH]; simpl; [done|].
  case_match.
  - intros ->%list_elem_of_singleton. by left.
  - intros Hin. right. auto.
Qed.

Lemma matching_row_elem h o rows r : matching_row h o rows = Some r -> r ∈ rows.
Proof.
  induction rows as [|r' rows IH]; simpl; [done|].
  case_match; [intros [= ->]; by left|]. intros Hm. right. auto.
Qed.

Lemma table_tags_range h o C : C ∈ table_tags h o -> C ∈ table_range.
Proof.
  unfold table_tags, table_range.
  destruct (matching_row h o dispatch_table) as [r|] eqn:E; [|by intros ?%elem_of_nil].
  intros HC. apply elem_of_concat. exists (row_tags r). split.
  - apply list_elem_of_In, in_map, list_elem_of_In. by eapply matching_row_elem.
  - unfold row_tags. apply elem_of_cons in HC as [->|HC]; [by left|]. right.
    apply elem_of_concat in HC as (tags & Htags & HC).
    apply list_elem_of_In, in_map_iff in Htags as (group & <- & Hgroup).
    apply first_applicable_range in HC.
    apply list_elem_of_fmap in HC as ([t C'] & -> & HC).
    apply list_elem_of_fmap. exists (t, C'). split; [done|].
    apply elem_of_concat. exists group. by rewrite list_elem_of_In.
Qed.

Lemma Object3DComponent_not_in_table : Object3DComponent ∉ table_range.
Proof. by (apply (bool_decide_unpack _); vm_compute). Qed.



(** Every tag of the table but [SkyboxComponent] is a tag class. *)
Lemma tags_of_table_marked C :
  C ∈ table_range -> C ≠ SkyboxComponent -> marks_tag_classes C = true.
Proof.
  intros H Hne. apply bool_decide_eq_true_2.
  unfold table_range in H. vm_compute in H.
  repeat (apply elem_of_cons in H as [->|H]; [first [done | by (apply (bool_decide_unpack _); vm_compute)]|]).
  by apply elem_of_nil in H.
Qed.


Section Reattach.
Context (marker : ComponentType -> bool).


End Reattach.

(** ** The guarantee of cascading removal *)

Lemma elem_of_remove_first_ne (l c : nat) ls :
  c ≠ l -> c ∈ ls -> c ∈ remove_first l ls.
Proof.
  intros Hne. induction ls as [|x ls IH]; [done|]. simpl.
  intros [->|Hin]%elem_of_cons.
  - rewrite decide_False by done. by left.
  - case_decide; [done|]. right. auto.
Qed.

Lemma not_elem_of_remove_first (l : nat) ls : NoDup ls -> l ∉ remove_first l ls.
Proof.
  induction ls as [|x ls IH]; [intros _; apply not_elem_of_nil|].
  intros [Hx Hnd]%NoDup_cons. simpl. case_decide; [by subst|].
  apply not_elem_of_cons. split; [done|auto].
Qed.

Lemma descendant_children_of h l c x :
  c ∈ children_of h l -> descendant h c x -> descendant h l x.
Proof.
  unfold children_of. destruct (h !! l) as [o|] eqn:E; [|by intros ?%elem_of_nil].
  intros Hc Hd. by econstructor.
Qed.

(** Taking [obj] out of a list of children leaves the rest of the scene
    graph reachable. *)
Lemma descendant_avoid h h' obj s x :
  (∀ y c, c ∈ children_of h y -> c ≠ obj -> c ∈ children_of h' y) ->
  descendant h s x -> descendant h obj x ∨ descendant h' s x.
Proof.
  intros Hkeep. induction 1 as [s|s o c x Hs Hc Hd IH].
  - right. constructor.
  - destruct (decide (c = obj)) as [->|Hne]; [by left|].
    destruct IH as [IH|IH]; [by left|]. right.
    eapply descendant_children_of; [|exact IH]. apply Hkeep; [|done].
    unfold children_of. by rewrite Hs.
Qed.

Lemma removed_not_alive fi w e : removed_as fi w e -> ¬ alive w e.
Proof. unfold removed_as, alive. destruct fi; tauto. Qed.

(** C8, as amended: cascading removal in a state where nodes and
    entities name each other.  For an entity whose component holds the
    root [obj] of a tree of nodes, linked to its parent, when every
    back-reference names the entity that holds the node, every live
    entity's node refers back to it ([ownership]) and nothing dangles
    before: [remove] returns; every node of the subtree has its
    back-reference cleared and the entity it named removed with the same
    flag, as is the entity itself; the root has no parent and is no child
    of its former parent; and again no node refers to an entity that left
    and no live entity refers to a node outside the scene graph. *)
Theorem cascade_removal fuel w e fi obj :
  getComponent w e Object3DComponent false = Some (VRef obj) ->
  tree (heap_of w) fuel obj ->
  parent_link (heap_of w) obj ->
  ownership w -> no_dangling w ->
  ∃ w', remove fuel w e fi = Done w'
    ∧ (∀ x, descendant (heap_of w) obj x ->
         get (heap_of w') (VRef x) "entity" = VNull
         ∧ ∀ e', get (heap_of w) (VRef x) "entity" = VEntity e' -> removed_as fi w' e')
    ∧ removed_as fi w' e
    ∧ get (heap_of w') (VRef obj) "parent" = VNull
    ∧ (∀ p, get (heap_of w) (VRef obj) "parent" = VRef p ->
            obj ∉ children_of (heap_of w') p)
    ∧ no_dangling w'.
Proof.
  intros Hget Htree Hlink [Hown1 Hown2] [Hg1 Hg2].
  destruct (traverse_remove fuel fi w obj Htree)
    as (wt & Etr & Hs & Hf & Hsc & Hen & Hd & Hout & Hmono & Hal & Hal').
  assert (Hpar : get (heap_of wt) (VRef obj) "parent" = get (heap_of w) (VRef obj) "parent").
  { apply Hf. solve_key. }
  (* the state after the root is taken from its parent *)
  assert (Hstep : ∃ h',
    (if truthy (get (heap_of wt) (VRef obj) "parent")
     then call_remove wt (get (heap_of wt) (VRef obj) "parent") (VRef obj)
     else Done wt) = Done (with_heap wt h')
    ∧ frame_except parent_key (heap_of wt) h'
    ∧ get h' (VRef obj) "parent" = VNull
    ∧ (∀ p, get (heap_of w) (VRef obj) "parent" = VRef p -> obj ∉ children_of h' p)
    ∧ (∀ y c, c ∈ children_of (heap_of w) y -> c ≠ obj -> c ∈ children_of h' y)).
  { rewrite Hpar. destruct Hlink as [Hnull|(p & Hp & Hnp & Hin & Hnd)].
    - rewrite Hnull. simpl. exists (heap_of wt). split; [by destruct wt|].
      split; [done|]. split; [congruence|]. split; [congruence|].
      intros y c Hc _. by rewrite (children_of_same_shape _ _ y Hs).
    - rewrite Hp. simpl.
      rewrite call_remove_node by (by eapply same_shape_node).
      eexists. split; [done|]. split; [apply Object3D_remove_frame|].
      assert (Hinp : obj ∈ children_of (heap_of wt) p).
      { by rewrite (children_of_same_shape _ _ p Hs). }
      split.
      { unfold Object3D_remove. unfold children_of in Hinp.
        destruct (heap_of wt !! p) as [po|] eqn:Ep; [|by apply elem_of_nil in Hinp].
        rewrite bool_decide_eq_true_2 by done.
        assert (Hex : is_Some (heap_of wt !! obj)).
        { eapply same_nodes_is_Some; [by apply same_shape_nodes|].
          apply node_is_Some. by eapply tree_node. }
        destruct (same_shape_lookup _ _ _ _
                    (same_shape_set (heap_of wt) (VRef obj) "parent" VNull) Ep)
          as (p1 & Ep1 & _).
        rewrite Ep1. rewrite get_set_children by exact Ep1. by apply get_set_eq. }
      split.
      { intros p' Hp'. inversion Hp'; subst p'.
        rewrite Object3D_remove_children, decide_True by done.
        apply not_elem_of_remove_first. by rewrite (children_of_same_shape _ _ p Hs). }
      intros y c Hc Hne. rewrite Object3D_remove_children.
      rewrite (children_of_same_shape _ _ y Hs).
      case_decide; [by apply elem_of_remove_first_ne|done]. }
  destruct Hstep as (h' & Estep & Hf' & Hpnull & Hgone & Hkeep).
  set (w1 := with_heap wt h').
  exists (removeEntity w1 e fi).
  assert (Hhas : hasComponent w e Object3DComponent = true).
  { unfold hasComponent. apply bool_decide_eq_true_2, comp_lookup_Some.
    unfold getComponent in Hget. rewrite Hget. eauto. }
  destruct (removeEntity_same w1 e fi) as (Eh & Esc & Een & _).
  split.
  { unfold remove. rewrite Hhas. unfold getObject3D. rewrite Hget. simpl.
    rewrite Etr. simpl. rewrite Estep. done. }
  rewrite Eh. simpl.
  assert (Hent' : ∀ x, get h' (VRef x) "entity" = get (heap_of wt) (VRef x) "entity").
  { intros x. apply Hf'. solve_key. }
  split.
  { intros x Hx. destruct (Hd x Hx) as [Hnull Hrem]. rewrite Hent'. split; [done|].
    intros e' He'. apply removeEntity_removed_mono. unfold removed_as in *. simpl.
    by apply Hrem. }
  split; [apply removeEntity_removed|]. split; [done|]. split; [done|].
  (* the guarantee *)
  split.
  - intros x e' Hx. rewrite Eh in Hx. simpl in Hx. rewrite Hent' in Hx.
    assert (Hnd : ¬ descendant (heap_of w) obj x).
    { intros Hdx. destruct (Hd x Hdx) as [Hnull _]. congruence. }
    rewrite Hout in Hx by done.
    apply removeEntity_alive. split.
    + assert (Ha : alive wt e').
      { apply Hal'; [by eapply Hg1|]. intros y Hy Hye.
        apply Hnd. apply Hown1 in Hx. apply Hown1 in Hye.
        rewrite Hx in Hye. inversion Hye; by subst. }
      exact Ha.
    + intros ->. apply Hnd. apply Hown1 in Hx. rewrite Hget in Hx.
      inversion Hx; subst. constructor.
  - intros e' x Ha Hgc. apply removeEntity_alive in Ha as [Ha Hne].
    assert (Ha0 : alive w e') by (by apply Hal).
    assert (Hgc0 : getComponent w e' Object3DComponent false = Some (VRef x)).
    { unfold getComponent in *. rewrite <- Hgc. f_equal. f_equal.
      apply ent_same_ents. rewrite Een. simpl. done. }
    pose proof (Hg2 e' x Ha0 Hgc0) as Hatt.
    assert (Hnd : ¬ descendant (heap_of w) obj x).
    { intros Hdx. destruct (Hd x Hdx) as [_ Hrem].
      apply (removed_not_alive fi wt e'); [|done]. apply Hrem. by apply Hown2. }
    unfold attached in *. rewrite Eh, Esc. simpl. rewrite Hsc.
    destruct (descendant_avoid _ h' obj _ _ Hkeep Hatt) as [?|?]; done.
Qed.

(** ** Checking a given state *)

(** A property of the back-references, checked object by object. *)
Lemma back_refs_check (P : nat -> nat -> Prop) `{!∀ x e, Decision (P x e)} w :
  forallb (λ p, match oget p.2 "entity" with
                | VEntity e => bool_decide (P p.1 e)
                | _ => true
                end) (map_to_list (heap_of w)) = true ->
  ∀ x e, get (heap_of w) (VRef x) "entity" = VEntity e -> P x e.
Proof.
  intros Hall x e Hx. unfold get in Hx.
  destruct (heap_of w !! x) as [o|] eqn:E; [|done].
  rewrite forallb_forall in Hall.
  specialize (Hall (x, o)). simpl in Hall. rewrite Hx in Hall.
  eapply bool_decide_eq_true_1, Hall.
  apply list_elem_of_In, elem_of_map_to_list, E.
Qed.

(** A property of the node references, checked entity by entity. *)
Lemma node_refs_check (Q : nat -> nat -> Prop) w :
  Forall (λ e, ∀ x, getComponent w e Object3DComponent false = Some (VRef x) -> Q e x)
         (entities w) ->
  ∀ e x, alive w e -> getComponent w e Object3DComponent false = Some (VRef x) -> Q e x.
Proof.
  intros Hall e x [Hin _] Hg. rewrite Forall_forall in Hall. by apply (Hall e).
Qed.

Lemma shared_world_remove :
  remove 1 shared_world 6 true = Done shared_world_after.
Proof. vm_compute. reflexivity. Qed.

Lemma shared_world_no_dangling : no_dangling shared_world.
Proof.
  split.
  - apply (back_refs_check (λ _ e, alive shared_world e)). vm_compute. reflexivity.
  - apply node_refs_check.
    assert (Hatt : attached shared_world 1).
    { eapply descendant_child; [vm_compute; reflexivity| |constructor].
      apply list_elem_of_singleton. reflexivity. }
    assert (He : entities shared_world = [5; 6]) by (vm_compute; reflexivity).
    rewrite He.
    repeat constructor; intros x Hx; vm_compute in Hx; inversion Hx; subst; exact Hatt.
Qed.

Lemma shared_world_after_detached : ¬ attached shared_world_after 1.
Proof.
  intros Hd. inversion Hd as [|? o c ? Hl Hin _]; subst.
  vm_compute in Hl. inversion Hl; subst. by apply elem_of_nil in Hin.
Qed.

(** C8 as worded does not hold: after two entities were attached to the
    same mesh, removing one of them takes the mesh out of the scene graph
    while the other entity, still in the ECS, holds it. *)
Lemma cascade_counterexample : ¬ cascade_as_stated.
Proof.
  intros H.
  assert (Hhas : hasComponent shared_world 6 Object3DComponent = true)
    by (vm_compute; reflexivity).
  destruct (H 1 shared_world 6 true shared_world_after shared_world_no_dangling Hhas
              shared_world_remove) as [_ Hc].
  apply shared_world_after_detached, (Hc 5 1).
  - split.
    + assert (He : entities shared_world_after = [5]) by (vm_compute; reflexivity).
      rewrite He. by left.
    + assert (He : entitiesToRemove shared_world_after = []) by (vm_compute; reflexivity).
      rewrite He. apply not_elem_of_nil.
  - vm_compute. reflexivity.
Qed.

Lemma cascade_world_tree : tree (heap_of cascade_world) 2 1.
Proof.
  eexists. split; [reflexivity|]. split; [reflexivity|].
  repeat constructor; (eexists; split; [reflexivity|]; split; [reflexivity|constructor]).
Defined.

Lemma cascade_world_parent_link : parent_link (heap_of cascade_world) 1.
Proof.
  right. exists 0. split; [reflexivity|]. split; [eexists; split; reflexivity|].
  change (children_of (heap_of cascade_world) 0) with [1].
  split; [by left|]. apply NoDup_singleton.
Defined.

Lemma cascade_world_attached x : x ∈ [1; 2; 3] -> attached cascade_world x.
Proof.
  intros Hx.
  assert (H1 : attached cascade_world 1).
  { eapply descendant_child; [reflexivity| |constructor]. by left. }
  assert (Hk : ∀ c, c ∈ [2; 3] -> attached cascade_world c).
  { intros c Hc. eapply descendant_child; [reflexivity|by left|].
    eapply descendant_child; [reflexivity|exact Hc|constructor]. }
  apply elem_of_cons in Hx as [->|Hx]; [done|]. by apply Hk.
Defined.

Lemma cascade_world_ownership : ownership cascade_world.
Proof.
  split.
  - apply (back_refs_check (holds_node cascade_world)). vm_compute. reflexivity.
  - apply (node_refs_check
             (λ e x, get (heap_of cascade_world) (VRef x) "entity" = VEntity e)).
    change (entities cascade_world) with [10; 11; 12].
    repeat constructor; intros x Hx; vm_compute in Hx; inversion Hx; subst; reflexivity.
Defined.

Lemma cascade_world_no_dangling : no_dangling cascade_world.
Proof.
  split.
  - apply (back_refs_check (λ _ e, alive cascade_world e)). vm_compute. reflexivity.
  - apply node_refs_check.
    change (entities cascade_world) with [10; 11; 12].
    repeat constructor; intros x Hx; vm_compute in Hx; inversion Hx; subst;
      apply cascade_world_attached; set_solver.
Defined.

Lemma cascade_removal_witness :
  (getComponent cascade_world 10 Object3DComponent false = Some (VRef 1)
   ∧ tree (heap_of cascade_world) 2 1
   ∧ parent_link (heap_of cascade_world) 1
   ∧ ownership cascade_world ∧ no_dangling cascade_world)
  ∧ ∃ w', remove 2 cascade_world 10 true = Done w'
    ∧ (∀ x, descendant (heap_of cascade_world) 1 x ->
         get (heap_of w') (VRef x) "entity" = VNull
         ∧ ∀ e', get (heap_of cascade_world) (VRef x) "entity" = VEntity e' ->
                 removed_as true w' e')
    ∧ removed_as true w' 10
    ∧ get (heap_of w') (VRef 1) "parent" = VNull
    ∧ (∀ p, get (heap_of cascade_world) (VRef 1) "parent" = VRef p ->
            1 ∉ children_of (heap_of w') p)
    ∧ no_dangling w'.
Proof.
  split.
  { split; [reflexivity|]. split; [exact cascade_world_tree|].
    split; [exact cascade_world_parent_link|].
    split; [exact cascade_world_ownership|exact cascade_world_no_dangling]. }
  exact (cascade_removal 2 cascade_world 10 true 1 eq_refl cascade_world_tree
           cascade_world_parent_link cascade_world_ownership cascade_world_no_dangling).
Defined.

Example cascade_removal_example :
  remove 2 cascade_world 10 true
  ≫= (λ w', Done (entities w', children_of (heap_of w') 0,
                  get (heap_of w') (VRef 2) "entity"))
  = Done ([], [], VNull).
Proof. vm_compute. reflexivity. Qed.

(** ** Attach, detach, attach on a sky dome and a mesh *)



(** The tag of the sky dome stays. *)
Example sky_dome_residue :
  (w1 ← addObject3DComponent 1 sky_world 7 (attach_instance 1);
   w2 ← removeObject3DComponent marks_tag_classes w1 7 true;
   w3 ← addObject3DComponent 1 w2 7 (attach_instance 2);
   Done (componentTypes (ent w3 7), get (heap_of w3) (VRef 1) "entity"))
  = Done ([SkyboxComponent; Object3DComponent; MeshTagComponent], VNull).
Proof. vm_compute. reflexivity. Qed.

(** A skinned mesh, then a point light: nothing of the mesh stays. *)
Example attach_detach_attach_example :
  (w1 ← addObject3DComponent 1 two_nodes_world 7 (attach_instance 1);
   w2 ← removeObject3DComponent marks_tag_classes w1 7 true;
   w3 ← addObject3DComponent 1 w2 7 (attach_instance 2);
   Done (componentTypes (ent w3 7), get (heap_of w3) (VRef 1) "entity"))
  = Done ([Object3DComponent; LightTagComponent; PointLightTagComponent], VNull).
Proof. vm_compute. reflexivity. Qed.

(** * Further properties of the behaviours *)

(** ** What [getComponentTags] can return *)

(** X1: [getComponentTags] returns at most three tags; the chain never pushes
    a tag twice, so the list has a repeated tag exactly on a positional
    audio node, where the first [if] has pushed already. *)
Theorem getComponentTags_bounds h object3d :
  (length (getComponentTags h object3d) ≤ 3)%nat
  ∧ NoDup (getComponentTags_chain h object3d)
  ∧ (NoDup (getComponentTags h object3d) <-> is_positional_audio h object3d = false).
Proof.
  unfold getComponentTags, getComponentTags_chain.
  destruct (is_positional_audio h object3d) eqn:E.
  { split; [simpl; lia|]. split; [apply NoDup_singleton|]. split; [|done].
    intros Hnd. simpl in Hnd. apply NoDup_cons in Hnd as [Hni _].
    destruct Hni. by left. }
  rewrite app_nil_l.
  assert (Hnd : NoDup (getComponentTags_chain h object3d)
                ∧ (length (getComponentTags_chain h object3d) ≤ 3)%nat).
  { unfold getComponentTags_chain. rewrite E.
    repeat case_match; simpl; (split; [|lia]);
      repeat (apply NoDup_cons; split; [rewrite ?elem_of_cons, ?elem_of_nil; intuition discriminate|]);
      apply NoDup_nil_2. }
  unfold getComponentTags_chain in Hnd. rewrite E in Hnd. destruct Hnd as [Hnd Hlen].
  split; [done|]. split; [done|]. split; done.
Qed.

(** ** Dots at the ends of a path *)

Lemma span_property_app s t p r :
  span_property s = (p, r) ->
  span_property (String.append s (String "." t)) = (p, String.append r (String "." t)).
Proof.
  revert p r. induction s as [|c s IH]; simpl; intros p r H.
  - by inversion H.
  - destruct (is_dot c); [by inversion H|].
    destruct (span_property s) as [p' r'] eqn:E. inversion H; subst.
    by rewrite (IH _ _ eq_refl).
Qed.

Lemma has_line_terminator_app s t :
  has_line_terminator (String.append s t) = has_line_terminator s || has_line_terminator t.
Proof. induction s as [|c s IH]; simpl; [done|]. by rewrite IH, orb_assoc. Qed.

(** The match of a valid path followed by a dot and more. *)
Lemma match_path_app path seg segs t :
  valid_path path -> split_dots path = seg :: segs -> has_line_terminator t = false ->
  match segs with
  | [] => match_path (String.append path (String "." t)) = Some (seg, Some t)
  | _ :: _ =>
      ∃ path', match_path path = Some (seg, Some path')
        ∧ match_path (String.append path (String "." t))
          = Some (seg, Some (String.append path' (String "." t)))
        ∧ path' ≠ EmptyString ∧ split_dots path' = segs ∧ valid_path path'
  end.
Proof.
  intros Hv Hsp Ht. pose proof (match_path_valid _ _ _ Hv Hsp) as Hm.
  destruct Hv as [Hne Hlt].
  destruct path as [|c s]; [simpl in Hne; by inversion Hne|].
  assert (Hc : is_dot c = false).
  { destruct (is_dot c) eqn:Hd; [|done]. simpl in Hne. rewrite Hd in Hne.
    by inversion Hne. }
  unfold match_path in *. simpl skip_dots in *. rewrite Hc in *.
  destruct (span_property (String c s)) as [p r] eqn:E.
  change (String c (String.append s (String "." t)))
    with (String.append (String c s) (String "." t)).
  rewrite (span_property_app _ t _ _ E).
  destruct segs as [|seg' segs].
  - destruct r as [|d r]; [|done]. inversion Hm; subst. simpl.
    by rewrite take_line_id.
  - destruct Hm as (path' & Hm & Hne' & Hs' & Hv'). destruct r as [|d r]; [done|].
    inversion Hm; subst. exists (take_line r). split; [done|].
    split; [|done]. simpl. f_equal. f_equal. f_equal.
    destruct (span_property_split _ _ _ E) as [[_ Hr]|Hr]; [|congruence].
    simpl in Hr. apply orb_false_iff in Hr as [_ Hr].
    rewrite !take_line_id; [done|done|].
    rewrite has_line_terminator_app, Hr. simpl. exact Ht.
Qed.

(** X3: dots at the head of a path are skipped; a path of dots only, or the
    empty path, assigns nothing. *)
Theorem applyDeepValue_leading_dots w subj path v :
  applyDeepValue w subj (String "." path) v = applyDeepValue w subj path v
  ∧ (skip_dots path = EmptyString ->
     applyDeepValue w subj path v
     = if truthy subj then w else console_warn w "subj is not an object").
Proof.
  split.
  - rewrite (applyDeepValue_eq w subj (String "." path)), (applyDeepValue_eq w subj path).
    done.
  - intros E. rewrite applyDeepValue_eq. unfold match_path. by rewrite E.
Qed.

(** X4: one dot at the end of a valid path is ignored: the last segment is
    assigned as without it.  After two dots nothing is assigned. *)
Theorem applyDeepValue_trailing_dots w path v : ∀ subj,
  valid_path path ->
  applyDeepValue w subj (String.append path ".") v = applyDeepValue w subj path v
  ∧ heap_of (applyDeepValue w subj (String.append path "..") v) = heap_of w.
Proof.
  intros subj Hv. remember (split_dots path) as segs eqn:Hs. symmetry in Hs.
  revert path subj Hv Hs. induction segs as [|seg segs IH]; intros path subj Hv Hs.
  { by destruct (split_dots_nonempty path). }
  pose proof (match_path_valid _ _ _ Hv Hs) as Hm.
  pose proof (match_path_app _ _ _ "" Hv Hs eq_refl) as Hm1.
  pose proof (match_path_app _ _ _ "." Hv Hs eq_refl) as Hm2.
  rewrite (applyDeepValue_eq w subj (String.append path ".")),
    (applyDeepValue_eq w subj (String.append path "..")), (applyDeepValue_eq w subj path).
  destruct (truthy subj); [|done].
  destruct segs as [|seg' segs].
  - rewrite Hm, Hm1, Hm2. split; [done|].
    destruct (String.eqb seg "" || is_undefined (get (heap_of w) subj seg)); [done|].
    simpl. rewrite applyDeepValue_eq. by destruct (truthy (get (heap_of w) subj seg)).
  - destruct Hm1 as (path' & Hm' & Hm1 & Hne & Hs' & Hv').
    destruct Hm2 as (path2 & Hm'' & Hm2 & _).
    rewrite Hm' in Hm''. inversion Hm''; subst path2. clear Hm''.
    rewrite Hm', Hm1, Hm2.
    destruct (String.eqb seg "" || is_undefined (get (heap_of w) subj seg)); [done|].
    assert (Hn : ∀ t, nextPath_truthy (Some (String.append path' t)) = Some (String.append path' t)).
    { intros t. destruct path'; done. }
    rewrite (Hn "."), (Hn "..").
    replace (nextPath_truthy (Some path')) with (Some path') by (by destruct path').
    by apply IH.
Qed.

(** ** The entity and the node after the attachment *)




(** ** Where the attachment puts the node *)




(** ** What the detachment keeps and what it unlinks *)

Section Detach_effect.
Context (marker : ComponentType -> bool).

(** The run of [removeObject3DComponent], with the store it ends in. *)
Lemma detach_steps w e unparent l :
  getComponent w e Object3DComponent true = Some (VRef l) ->
  node (heap_of w) (scene w) ->
  parent_detachable (heap_of w) l ->
  ∃ w', removeObject3DComponent marker w e unparent = Done w'
    ∧ heap_of w'
      = set (detach_heap (heap_of w) (scene w) l unparent) (VRef l) "entity" VNull
    ∧ csm w' = csm w ∧ console w' = console w
    ∧ (∀ C, C ≠ Object3DComponent -> marker C = false ->
         comp_lookup C (components (ent w' e)) = comp_lookup C (components (ent w e))).
Proof.
  intros Hget Hsc Hpar.
  set (h1 := Object3D_remove (heap_of w) (scene w) (VRef l)).
  pose proof (Object3D_remove_nodes (heap_of w) (scene w) (VRef l)) as Hn1. fold h1 in Hn1.
  pose proof (Object3D_remove_parent (heap_of w) (scene w) l) as Hp1. fold h1 in Hp1.
  set (w1 := with_heap w h1).
  set (h2 := detach_heap (heap_of w) (scene w) l unparent).
  assert (E2 :
    (if unparent then
       if truthy (get h1 (VRef l) "parent")
       then call_remove w1 (get h1 (VRef l) "parent") (VRef l)
       else Done w1
     else Done w1) = Done (with_heap w h2)).
  { unfold h2, detach_heap. fold h1. destruct unparent; [|done].
    destruct Hpar as [Hfalsy|(p & Hp & Hnp)].
    - destruct Hp1 as [Hp1|Hp1]; rewrite Hp1; [done|]. rewrite Hfalsy.
      by destruct (get (heap_of w) (VRef l) "parent").
    - destruct Hp1 as [Hp1|Hp1]; rewrite Hp1; [done|]. rewrite Hp. simpl.
      unfold call_remove. change (heap_of w1) with h1.
      assert (Hnat : node_at h1 (VRef p) = Some p).
      { apply node_at_node. by eapply same_nodes_node. }
      by rewrite Hnat. }
  set (w2 := with_heap w h2).
  set (w3 := removeComponent w2 e Object3DComponent).
  destruct (remove_tags_loop_run marker (length (componentTypes (ent w3 e))) w3 e)
    as (w4 & Eloop & Hsame & _ & _ & Hlk & _); [lia| |].
  { intros i C Hi Hlk. apply lookup_lt_Some in Hlk. lia. }
  destruct Hsame as (Hh4 & _ & Hcsm4 & Hcon4 & _).
  exists (with_heap w4 (set (heap_of w4) (VRef l) "entity" VNull)). split.
  { unfold removeObject3DComponent. rewrite Hget. simpl.
    rewrite (call_remove_node w (scene w)) by done. simpl. fold h1 w1.
    rewrite E2. simpl. fold w2 w3. rewrite Eloop. done. }
  simpl. split; [by rewrite Hh4|]. split; [by rewrite Hcsm4|]. split; [by rewrite Hcon4|].
  intros C HC Hm. unfold ent at 1. simpl. fold (ent w4 e). rewrite Hlk by done.
  unfold w3. rewrite ent_removeComponent. simpl. apply comp_lookup_remove_ne. congruence.
Qed.

(** X10: the detachment removes nothing but [Object3DComponent] and the marked
    tags: the entity keeps every other component, with its value, the
    other entities are as they were, no entity enters or leaves the
    engine, and in the store only [parent] and [entity] fields and lists
    of children can differ. *)
Theorem detach_keeps_the_rest w e unparent l :
  getComponent w e Object3DComponent true = Some (VRef l) ->
  is_Some (heap_of w !! l) ->
  node (heap_of w) (scene w) ->
  parent_detachable (heap_of w) l ->
  ∃ w', removeObject3DComponent marker w e unparent = Done w'
    ∧ (∀ C includeRemoved, C ≠ Object3DComponent -> marker C = false ->
         getComponent w' e C includeRemoved = getComponent w e C includeRemoved)
    ∧ (∀ e', e' ≠ e -> ent w' e' = ent w e')
    ∧ entities w' = entities w ∧ entitiesToRemove w' = entitiesToRemove w
    ∧ scene w' = scene w ∧ csm w' = csm w ∧ console w' = console w
    ∧ (∀ x k, k ≠ "parent" -> k ≠ "entity" ->
         get (heap_of w') x k = get (heap_of w) x k).
Proof.
  intros Hget Hl Hsc Hpar.
  destruct (detach_run marker w e unparent l Hget Hl Hsc Hpar)
    as (w' & Erun & Esc & Een & Erm & Hoth & _ & _ & _ & Hf & _).
  destruct (detach_steps w e unparent l Hget Hsc Hpar)
    as (w'' & Erun' & _ & Hcsm & Hcon & Hlk).
  rewrite Erun in Erun'. inversion Erun'; subst w''. clear Erun'.
  exists w'. split; [done|]. split; [intros C ir HC Hm; unfold getComponent; by apply Hlk|].
  do 6 (split; [done|]).
  intros x k Hk1 Hk2. apply Hf. unfold link_keys.
  rewrite !elem_of_cons, elem_of_nil. naive_solver.
Qed.

Lemma remove_first_absent (l : nat) ls : l ∉ ls -> remove_first l ls = ls.
Proof.
  induction ls as [|x ls IH]; [done|]. intros [Hx Hl]%not_elem_of_cons. simpl.
  rewrite decide_False by done. by rewrite IH.
Qed.

Lemma Object3D_remove_absent h this l :
  l ∉ children_of h this -> Object3D_remove h this (VRef l) = h.
Proof.
  unfold children_of, Object3D_remove. intros Hni.
  destruct (h !! this) as [p|]; [|done]. by rewrite bool_decide_eq_false_2.
Qed.

Lemma Object3D_remove_present h this l :
  l ∈ children_of h this -> is_Some (h !! l) ->
  get (Object3D_remove h this (VRef l)) (VRef l) "parent" = VNull.
Proof.
  unfold children_of, Object3D_remove. intros Hin Hl.
  destruct (h !! this) as [p|] eqn:Ep; [|by apply elem_of_nil in Hin].
  rewrite bool_decide_eq_true_2 by done.
  destruct (same_shape_lookup _ _ _ _
              (same_shape_set h (VRef l) "parent" VNull) Ep) as (p1 & Ep1 & _).
  rewrite Ep1. rewrite get_set_children by exact Ep1. by apply get_set_eq.
Qed.

(** X11: what the detachment does to the scene graph, for an object that is
    listed by its parent and by nothing else.  The object is taken out of
    the graph when [unparent] is set or its parent is the scene root: its
    [parent] is then [null] and no list of children has it.  With
    [unparent] unset, an object under another parent stays where it is. *)
Theorem detach_unlinks w e unparent l :
  getComponent w e Object3DComponent true = Some (VRef l) ->
  is_Some (heap_of w !! l) ->
  node (heap_of w) (scene w) ->
  parent_link (heap_of w) l ->
  listed_by_parent (heap_of w) l ->
  let detached :=
    unparent || bool_decide (get (heap_of w) (VRef l) "parent" = VRef (scene w)) in
  ∃ w', removeObject3DComponent marker w e unparent = Done w'
    ∧ get (heap_of w') (VRef l) "parent"
      = (if detached then VNull else get (heap_of w) (VRef l) "parent")
    ∧ (∀ x, children_of (heap_of w') x
            = if detached then remove_first l (children_of (heap_of w) x)
              else children_of (heap_of w) x)
    ∧ (detached = true -> ∀ x, l ∉ children_of (heap_of w') x).
Proof.
  intros Hget Hl Hsc Hlink Hlist detached.
  assert (Hpar : parent_detachable (heap_of w) l).
  { destruct Hlink as [Hp|(p & Hp & Hnp & _)]; [left; by rewrite Hp|right; eauto]. }
  destruct (detach_steps w e unparent l Hget Hsc Hpar) as (w' & Erun & Hh & _).
  exists w'. split; [done|]. rewrite Hh. clear Hh Erun w'.
  set (h := heap_of w) in *. set (s := scene w) in *.
  assert (Hkey : get (detach_heap h s l unparent) (VRef l) "parent"
                 = (if detached then VNull else get h (VRef l) "parent")
                 ∧ ∀ x, children_of (detach_heap h s l unparent) x
                        = if detached then remove_first l (children_of h x)
                          else children_of h x).
  { unfold detach_heap. destruct Hlink as [Hp|(p & Hp & Hnp & Hin & Hnd)].
    - (* no parent: no list has the object *)
      assert (Hno : ∀ x, l ∉ children_of h x).
      { intros x Hx. apply Hlist in Hx. congruence. }
      rewrite Object3D_remove_absent by done. rewrite Hp.
      assert (Hh : (if unparent then h else h) = h) by (by destruct unparent).
      rewrite Hh, Hp. split; [by destruct detached|].
      intros x. rewrite remove_first_absent by done. by destruct detached.
    - destruct (decide (p = s)) as [->|Hps].
      + (* the parent is the scene root *)
        assert (Hd : detached = true).
        { unfold detached. rewrite Hp, bool_decide_eq_true_2 by done. apply orb_true_r. }
        rewrite Hd. rewrite (Object3D_remove_present h s l) by done.
        assert (Hc : ∀ x, children_of (Object3D_remove h s (VRef l)) x
                          = remove_first l (children_of h x)).
        { intros x. rewrite Object3D_remove_children. case_decide; [done|].
          rewrite remove_first_absent; [done|]. intros Hx. apply Hlist in Hx. congruence. }
        destruct unparent; split; try done; by apply Object3D_remove_present.
      + (* another parent *)
        assert (Hns : l ∉ children_of h s).
        { intros Hx. apply Hlist in Hx. congruence. }
        assert (Hd : detached = unparent).
        { unfold detached. rewrite Hp, bool_decide_eq_false_2 by congruence.
          apply orb_false_r. }
        rewrite Hd. rewrite Object3D_remove_absent by done.
        destruct unparent; [|done]. rewrite Hp. split.
        * by apply Object3D_remove_present.
        * intros x. rewrite Object3D_remove_children. case_decide; [done|].
          rewrite remove_first_absent; [done|]. intros Hx. apply Hlist in Hx. congruence. }
  destruct Hkey as (Hkp & Hkc).
  split; [by rewrite get_set_ne_key|]. split.
  { intros x. by rewrite children_of_set. }
  intros Hd x. rewrite children_of_set, Hkc, Hd.
  destruct (decide (l ∈ children_of h x)) as [Hin|Hni].
  - destruct Hlink as [Hp|(p & Hp & _ & _ & Hnd)].
    + apply Hlist in Hin. congruence.
    + apply Hlist in Hin. rewrite Hp in Hin. inversion Hin; subst.
      by apply not_elem_of_remove_first.
  - by rewrite remove_first_absent.
Qed.

End Detach_effect.

(** ** The traversal as a fold over the nodes in the order of the visits *)

Lemma preorder_same_shape h h' fuel : ∀ l,
  same_shape h h' -> preorder h' fuel l = preorder h fuel l.
Proof.
  induction fuel as [|fuel IH]; intros l Hs; [done|]. simpl.
  rewrite (children_of_same_shape _ _ l Hs). f_equal. f_equal.
  apply map_ext. intros c. by apply IH.
Qed.

Section traverse_fold.
Context (callback : loc -> World -> World).
Hypothesis callback_shape : ∀ x w, same_shape (heap_of w) (heap_of (callback x w)).

Lemma foldl_callback_shape xs : ∀ w,
  same_shape (heap_of w) (heap_of (foldl (λ w x, callback x w) w xs)).
Proof.
  induction xs as [|x xs IH]; intros w; simpl; [apply same_shape_refl|].
  eapply same_shape_trans; [apply callback_shape|apply IH].
Qed.

Lemma traverse_fold (fuel : nat) : ∀ (d : nat) l w,
  tree (heap_of w) d l -> (d ≤ fuel)%nat ->
  traverse fuel callback l w
  = Done (foldl (λ w x, callback x w) w (preorder (heap_of w) fuel l)).
Proof.
  induction fuel as [|fuel IH]; intros d l w Ht Hd.
  { destruct d; [done|lia]. }
  destruct d as [|d]; [done|]. destruct Ht as (o & Hl & Hn & Hc).
  rewrite traverse_S.
  assert (Hnode : node (heap_of w) l) by (exists o; by split).
  apply node_at_node in Hnode. rewrite Hnode.
  pose proof (callback_shape l w) as Hs1.
  destruct (same_shape_lookup _ _ _ _ Hs1 Hl) as (o1 & Hl1 & _ & Hc1).
  rewrite Hl1, Hc1. simpl preorder. simpl foldl.
  unfold children_of at 1. rewrite Hl.
  assert (Hkids : ∀ cs w1, same_shape (heap_of w) (heap_of w1) ->
            Forall (tree (heap_of w) d) cs ->
            forM (traverse fuel callback) cs w1
            = Done (foldl (λ w x, callback x w) w1
                      (concat (map (preorder (heap_of w) fuel) cs)))).
  { induction cs as [|c cs IHcs]; intros w1 Hsw Hall; [done|].
    apply Forall_cons in Hall as [Hc0 Hall]. simpl.
    rewrite (IH d c w1) by (by eapply same_shape_tree || lia). simpl.
    rewrite foldl_app. rewrite (preorder_same_shape _ _ fuel c Hsw).
    apply IHcs; [|done].
    eapply same_shape_trans; [exact Hsw|apply foldl_callback_shape]. }
  by apply Hkids.
Qed.

End traverse_fold.

(** ** The traversal of [remove] *)

Lemma remove_callback_shape fi x w :
  same_shape (heap_of w) (heap_of (remove_callback fi x w)).
Proof. rewrite remove_callback_unfold. simpl. apply same_shape_set. Qed.

Lemma remove_callback_fields fi x w :
  heap_of (remove_callback fi x w) = set (heap_of w) (VRef x) "entity" VNull
  ∧ scene (remove_callback fi x w) = scene w
  ∧ ents (remove_callback fi x w) = ents w
  ∧ csm (remove_callback fi x w) = csm w
  ∧ console (remove_callback fi x w) = console w.
Proof.
  rewrite remove_callback_unfold. simpl.
  destruct (get (heap_of w) (VRef x) "entity"); try done.
  destruct (removeEntity_same w e fi) as (_ & -> & -> & -> & ->). done.
Qed.

(** What the callbacks of [remove] leave alone. *)
Lemma remove_fold_frame fi xs : ∀ w,
  let w' := foldl (λ w x, remove_callback fi x w) w xs in
  scene w' = scene w ∧ ents w' = ents w ∧ csm w' = csm w ∧ console w' = console w
  ∧ same_shape (heap_of w) (heap_of w')
  ∧ (∀ x k, k ≠ "entity" -> get (heap_of w') x k = get (heap_of w) x k)
  ∧ (∀ x, x ∉ xs -> get (heap_of w') (VRef x) "entity" = get (heap_of w) (VRef x) "entity").
Proof.
  induction xs as [|y xs IH]; intros w; simpl.
  { repeat split; try done; apply same_shape_refl. }
  destruct (remove_callback_fields fi y w) as (Hh & Hsc & Hen & Hcsm & Hcon).
  destruct (IH (remove_callback fi y w)) as (-> & -> & -> & -> & Hs & Hf & Ho).
  do 4 (split; [done|]). split.
  { eapply same_shape_trans; [apply remove_callback_shape|exact Hs]. }
  split.
  - intros x k Hk. rewrite Hf by done. rewrite Hh. by apply get_set_ne_key.
  - intros x [Hxy Hx]%not_elem_of_cons. rewrite Ho by done. rewrite Hh.
    by apply get_set_ne_loc.
Qed.

Lemma back_refs_cons h x xs :
  back_refs h (x :: xs)
  = match get h (VRef x) "entity" with
    | VEntity e => e :: back_refs h xs
    | _ => back_refs h xs
    end.
Proof. unfold back_refs. simpl. by destruct (get h (VRef x) "entity"). Qed.

Lemma back_refs_ext h h' xs :
  (∀ x, x ∈ xs -> get h' (VRef x) "entity" = get h (VRef x) "entity") ->
  back_refs h' xs = back_refs h xs.
Proof.
  induction xs as [|x xs IH]; intros Heq; [done|].
  assert (IH' : back_refs h' xs = back_refs h xs).
  { apply IH. intros y Hy. apply Heq. by right. }
  rewrite !back_refs_cons. rewrite (Heq x) by (by left). by rewrite IH'.
Qed.

Lemma filter_all {A} (P : A -> Prop) `{!∀ x, Decision (P x)} (l : list A) :
  (∀ x, P x) -> filter P l = l.
Proof.
  intros HP. induction l as [|x l IH]; [done|].
  rewrite filter_cons_True by done. by rewrite IH.
Qed.

(** The entities that the callbacks of [remove] ask to remove, when each
    node is visited once. *)
Lemma remove_fold_entities fi xs : ∀ w,
  NoDup xs ->
  let w' := foldl (λ w x, remove_callback fi x w) w xs in
  let named := back_refs (heap_of w) xs in
  (fi = false ->
   entitiesToRemove w' = entitiesToRemove w ++ named ∧ entities w' = entities w)
  ∧ (fi = true ->
     entities w' = filter (λ e, e ∉ named) (entities w)
     ∧ entitiesToRemove w' = entitiesToRemove w).
Proof.
  induction xs as [|y xs IH]; intros w Hnd; cbv zeta.
  { simpl. split; intros _; split; try done; [by rewrite app_nil_r|].
    symmetry. apply filter_all. intros x. apply not_elem_of_nil. }
  apply NoDup_cons in Hnd as [Hy Hnd].
  destruct (remove_callback_fields fi y w) as (Hh & _).
  assert (Hb : back_refs (heap_of (remove_callback fi y w)) xs = back_refs (heap_of w) xs).
  { apply back_refs_ext. intros x Hx. rewrite Hh. apply get_set_ne_loc. by intros ->. }
  destruct (IH (remove_callback fi y w) Hnd) as (Hdef & Him). rewrite Hb in Hdef, Him.
  rewrite back_refs_cons.
  change (foldl (λ w x, remove_callback fi x w) w (y :: xs))
    with (foldl (λ w x, remove_callback fi x w) (remove_callback fi y w) xs).
  assert (Hcb : entities (remove_callback fi y w)
                = entities (match get (heap_of w) (VRef y) "entity" with
                            | VEntity e => removeEntity w e fi | _ => w end)
                ∧ entitiesToRemove (remove_callback fi y w)
                  = entitiesToRemove (match get (heap_of w) (VRef y) "entity" with
                                      | VEntity e => removeEntity w e fi | _ => w end)).
  { by rewrite remove_callback_unfold. }
  destruct Hcb as (Hce & Hcr).
  split; intros ->.
  - destruct (Hdef eq_refl) as (-> & ->). rewrite Hce, Hcr.
    destruct (get (heap_of w) (VRef y) "entity"); simpl; try done.
    by rewrite <- app_assoc.
  - destruct (Him eq_refl) as (-> & ->). rewrite Hce, Hcr.
    destruct (get (heap_of w) (VRef y) "entity"); simpl; try done.
    split; [|done]. rewrite list_filter_filter. apply list_filter_iff.
    intros x. rewrite not_elem_of_cons. tauto.
Qed.

(** The run of [remove]: the callbacks on the nodes in order, the root
    taken from its parent, the entity removed. *)
Lemma remove_steps fuel w e fi obj :
  getComponent w e Object3DComponent false = Some (VRef obj) ->
  tree (heap_of w) fuel obj ->
  parent_detachable (heap_of w) obj ->
  let wt := foldl (λ w x, remove_callback fi x w) w (preorder (heap_of w) fuel obj) in
  remove fuel w e fi
  = Done (removeEntity
            (with_heap wt
               (match get (heap_of w) (VRef obj) "parent" with
                | VRef p => Object3D_remove (heap_of wt) p (VRef obj)
                | _ => heap_of wt
                end)) e fi).
Proof.
  intros Hget Htree Hpar wt.
  assert (Hhas : hasComponent w e Object3DComponent = true).
  { unfold hasComponent. apply bool_decide_eq_true_2, comp_lookup_Some.
    unfold getComponent in Hget. rewrite Hget. eauto. }
  unfold remove. rewrite Hhas. unfold getObject3D. rewrite Hget.
  rewrite (traverse_fold _ (remove_callback_shape fi) fuel fuel obj w Htree) by lia.
  fold wt. simpl.
  destruct (remove_fold_frame fi (preorder (heap_of w) fuel obj) w)
    as (_ & _ & _ & _ & Hs & Hf & _). fold wt in Hs, Hf.
  rewrite (Hf (VRef obj) "parent") by done.
  destruct Hpar as [Hfalsy|(p & Hp & Hnp)].
  - rewrite Hfalsy. destruct (get (heap_of w) (VRef obj) "parent"); try done.
    all: by destruct wt.
  - rewrite Hp. simpl. rewrite call_remove_node; [done|].
    eapply same_nodes_node; [by apply same_shape_nodes|done].
Qed.

(** X12: in the store [remove] changes nothing but [entity] fields of the
    nodes that it visits, the [parent] of the root, and the children of
    that parent, which lose the root: the subtree below the root stays as
    it is, and the nodes outside it keep their [entity]. *)
Theorem remove_keeps_the_rest fuel w e fi obj :
  getComponent w e Object3DComponent false = Some (VRef obj) ->
  tree (heap_of w) fuel obj ->
  parent_detachable (heap_of w) obj ->
  ∃ w', remove fuel w e fi = Done w'
    ∧ scene w' = scene w
    ∧ (∀ x k, k ≠ "entity" -> k ≠ "parent" ->
         get (heap_of w') x k = get (heap_of w) x k)
    ∧ (∀ x, x ≠ obj ->
         get (heap_of w') (VRef x) "parent" = get (heap_of w) (VRef x) "parent")
    ∧ (∀ x, x ∉ preorder (heap_of w) fuel obj ->
         get (heap_of w') (VRef x) "entity" = get (heap_of w) (VRef x) "entity")
    ∧ (∀ x, children_of (heap_of w') x
            = if decide (get (heap_of w) (VRef obj) "parent" = VRef x)
              then remove_first obj (children_of (heap_of w) x)
              else children_of (heap_of w) x).
Proof.
  intros Hget Htree Hpar. eexists. split; [by apply remove_steps|].
  set (wt := foldl (λ w x, remove_callback fi x w) w (preorder (heap_of w) fuel obj)).
  destruct (remove_fold_frame fi (preorder (heap_of w) fuel obj) w)
    as (Hsc & Hen & Hcsm & Hcon & Hs & Hf & Ho). fold wt in Hsc, Hen, Hcsm, Hcon, Hs, Hf, Ho.
  set (h' := match get (heap_of w) (VRef obj) "parent" with
             | VRef p => Object3D_remove (heap_of wt) p (VRef obj)
             | _ => heap_of wt
             end).
  destruct (removeEntity_same (with_heap wt h') e fi) as (-> & -> & _).
  simpl. split; [done|].
  assert (Hfr : frame_except parent_key (heap_of wt) h').
  { unfold h'. destruct (get (heap_of w) (VRef obj) "parent");
      try apply frame_except_refl. apply Object3D_remove_frame. }
  split.
  { intros x k Hk1 Hk2. rewrite Hfr; [by apply Hf|].
    unfold parent_key. by rewrite list_elem_of_singleton. }
  split.
  { intros x Hx. rewrite <- (Hf (VRef x) "parent") by done. unfold h'.
    destruct (get (heap_of w) (VRef obj) "parent"); try done.
    by apply Object3D_remove_parent_other. }
  split.
  { intros x Hx. rewrite <- Ho by done. apply Hfr. solve_key. }
  intros x. rewrite <- (children_of_same_shape _ _ x Hs). unfold h'.
  destruct (get (heap_of w) (VRef obj) "parent") as [| | | | | | |p];
    try (by rewrite decide_False).
  rewrite Object3D_remove_children.
  destruct (decide (x = p)) as [->|Hx]; [by rewrite decide_True|].
  rewrite decide_False; [done|]. by intros [= ->].
Qed.

(** X13: the entities that [remove] asks the ECS to remove, when each node of
    the subtree is visited once: those that the nodes name, in the order
    of the traversal, then the entity itself.  With the deferred flag
    they are queued in that order; with the immediate flag they leave the
    list of entities. *)
Theorem remove_order fuel w e fi obj :
  getComponent w e Object3DComponent false = Some (VRef obj) ->
  tree (heap_of w) fuel obj ->
  NoDup (preorder (heap_of w) fuel obj) ->
  parent_detachable (heap_of w) obj ->
  ∃ w', remove fuel w e fi = Done w'
    ∧ (fi = false ->
       entitiesToRemove w'
       = entitiesToRemove w ++ back_refs (heap_of w) (preorder (heap_of w) fuel obj) ++ [e]
       ∧ entities w' = entities w)
    ∧ (fi = true ->
       entities w'
       = filter (λ x, x ∉ back_refs (heap_of w) (preorder (heap_of w) fuel obj) ++ [e])
           (entities w)
       ∧ entitiesToRemove w' = entitiesToRemove w).
Proof.
  intros Hget Htree Hnd Hpar. eexists. split; [by apply remove_steps|].
  destruct (remove_fold_entities fi (preorder (heap_of w) fuel obj) w Hnd) as (Hdef & Him).
  cbv zeta in Hdef, Him.
  split; intros ->.
  - destruct (Hdef eq_refl) as (Hq & Hen). unfold removeEntity. simpl.
    rewrite Hq, Hen. by rewrite <- app_assoc.
  - destruct (Him eq_refl) as (Hen & Hq). unfold removeEntity. simpl.
    rewrite Hq, Hen. split; [|done]. rewrite list_filter_filter. apply list_filter_iff.
    intros x. rewrite not_elem_of_app, list_elem_of_singleton. tauto.
Qed.

(** ** The materials handed to [Engine.csm] *)








(** ** Attach, then detach *)

Section Attach_detach.
Context (marker : ComponentType -> bool).


End Attach_detach.

(** ** The further properties on the example states *)

Lemma applyDeepValue_trailing_dots_witness :
  valid_path "material.color"
  ∧ applyDeepValue coloured_world (VRef 1) (String.append "material.color" ".") (VStr "#fff")
    = applyDeepValue coloured_world (VRef 1) "material.color" (VStr "#fff")
  ∧ heap_of (applyDeepValue coloured_world (VRef 1) (String.append "material.color" "..")
               (VStr "#fff"))
    = heap_of coloured_world.
Proof.
  split; [exact material_color_valid|].
  exact (applyDeepValue_trailing_dots coloured_world "material.color" (VStr "#fff")
           (VRef 1) material_color_valid).
Defined.





Example attach_parenting_example :
  addObject3DComponent 1 family_world 11 family_args
  ≫= (λ w', Done (children_of (heap_of w') 0, children_of (heap_of w') 1,
                  get (heap_of w') (VRef 2) "parent"))
  = Done ([1], [2], VRef 1).
Proof. vm_compute. reflexivity. Qed.



Example attach_setup_materials_example :
  addObject3DComponent 2 csm_world 7 (attach_instance 1) ≫= (λ w', Done (csm w'))
  = Done (Some [VRef 2]).
Proof. vm_compute. reflexivity. Qed.

(** The objects that list [l] among their children, checked one by one. *)
Lemma listed_by_parent_check h l :
  forallb (λ p, negb (bool_decide (l ∈ children p.2))
                || bool_decide (get h (VRef l) "parent" = VRef p.1))
          (map_to_list h) = true ->
  listed_by_parent h l.
Proof.
  intros Hall x Hx. unfold children_of in Hx.
  destruct (h !! x) as [o|] eqn:E; [|by apply elem_of_nil in Hx].
  rewrite forallb_forall in Hall. specialize (Hall (x, o)). simpl in Hall.
  rewrite bool_decide_eq_true_2 in Hall by done. simpl in Hall.
  eapply bool_decide_eq_true_1, Hall.
  apply list_elem_of_In, elem_of_map_to_list, E.
Defined.

Lemma detach_keeps_the_rest_witness :
  (getComponent attached_world 7 Object3DComponent true = Some (VRef 1)
   ∧ is_Some (heap_of attached_world !! 1)
   ∧ node (heap_of attached_world) (scene attached_world)
   ∧ parent_detachable (heap_of attached_world) 1)
  ∧ ∃ w', removeObject3DComponent marks_table_tags attached_world 7 true = Done w'
    ∧ (∀ C includeRemoved, C ≠ Object3DComponent -> marks_table_tags C = false ->
         getComponent w' 7 C includeRemoved = getComponent attached_world 7 C includeRemoved)
    ∧ (∀ e', e' ≠ 7 -> ent w' e' = ent attached_world e')
    ∧ entities w' = entities attached_world
    ∧ entitiesToRemove w' = entitiesToRemove attached_world
    ∧ scene w' = scene attached_world ∧ csm w' = csm attached_world
    ∧ console w' = console attached_world
    ∧ (∀ x k, k ≠ "parent" -> k ≠ "entity" ->
         get (heap_of w') x k = get (heap_of attached_world) x k).
Proof.
  assert (H1 : getComponent attached_world 7 Object3DComponent true = Some (VRef 1))
    by reflexivity.
  assert (H3 : is_Some (heap_of attached_world !! 1)) by (vm_compute; eauto).
  assert (H4 : node (heap_of attached_world) (scene attached_world)).
  { eexists. split; vm_compute; reflexivity. }
  assert (H5 : parent_detachable (heap_of attached_world) 1).
  { right. exists 0. split; [vm_compute; reflexivity|].
    eexists. split; vm_compute; reflexivity. }
  split; [by repeat split|].
  exact (detach_keeps_the_rest marks_table_tags attached_world 7 true 1 H1 H3 H4 H5).
Defined.

Lemma cascade_world_mesh_link : parent_link (heap_of cascade_world) 2.
Proof.
  right. exists 1. split; [reflexivity|]. split; [eexists; split; reflexivity|].
  change (children_of (heap_of cascade_world) 1) with [2; 3].
  split; [by left|]. apply NoDup_cons. split; [|apply NoDup_singleton].
  intros Hin. apply list_elem_of_singleton in Hin. discriminate.
Defined.

Lemma detach_unlinks_witness :
  (getComponent cascade_world 11 Object3DComponent true = Some (VRef 2)
   ∧ is_Some (heap_of cascade_world !! 2)
   ∧ node (heap_of cascade_world) (scene cascade_world)
   ∧ parent_link (heap_of cascade_world) 2
   ∧ listed_by_parent (heap_of cascade_world) 2)
  ∧ ∃ w', removeObject3DComponent marks_table_tags cascade_world 11 false = Done w'
    ∧ get (heap_of w') (VRef 2) "parent"
      = (if false || bool_decide (get (heap_of cascade_world) (VRef 2) "parent"
                                  = VRef (scene cascade_world))
         then VNull else get (heap_of cascade_world) (VRef 2) "parent")
    ∧ (∀ x, children_of (heap_of w') x
            = if false || bool_decide (get (heap_of cascade_world) (VRef 2) "parent"
                                       = VRef (scene cascade_world))
              then remove_first 2 (children_of (heap_of cascade_world) x)
              else children_of (heap_of cascade_world) x)
    ∧ (false || bool_decide (get (heap_of cascade_world) (VRef 2) "parent"
                             = VRef (scene cascade_world)) = true ->
       ∀ x, 2 ∉ children_of (heap_of w') x).
Proof.
  assert (H1 : getComponent cascade_world 11 Object3DComponent true = Some (VRef 2))
    by reflexivity.
  assert (H2 : is_Some (heap_of cascade_world !! 2)) by (vm_compute; eauto).
  assert (H3 : node (heap_of cascade_world) (scene cascade_world)).
  { eexists. split; reflexivity. }
  assert (H5 : listed_by_parent (heap_of cascade_world) 2).
  { apply listed_by_parent_check. vm_compute. reflexivity. }
  split.
  { split; [exact H1|]. split; [exact H2|]. split; [exact H3|].
    split; [exact cascade_world_mesh_link|exact H5]. }
  exact (detach_unlinks marks_table_tags cascade_world 11 false 2 H1 H2 H3
           cascade_world_mesh_link H5).
Defined.

(** With [unparent] unset the mesh stays below the group; with it set the
    mesh leaves the group. *)
Example detach_unparent_example :
  (removeObject3DComponent marks_table_tags cascade_world 11 false
   ≫= (λ w', Done (children_of (heap_of w') 1, get (heap_of w') (VRef 2) "parent")),
   removeObject3DComponent marks_table_tags cascade_world 11 true
   ≫= (λ w', Done (children_of (heap_of w') 1, get (heap_of w') (VRef 2) "parent")))
  = (Done ([2; 3], VRef 1), Done ([3], VNull)).
Proof. vm_compute. reflexivity. Qed.

Lemma cascade_world_detachable : parent_detachable (heap_of cascade_world) 1.
Proof. right. exists 0. split; [reflexivity|]. eexists. split; reflexivity. Defined.

Lemma remove_keeps_the_rest_witness :
  (getComponent cascade_world 10 Object3DComponent false = Some (VRef 1)
   ∧ tree (heap_of cascade_world) 2 1
   ∧ parent_detachable (heap_of cascade_world) 1)
  ∧ ∃ w', remove 2 cascade_world 10 true = Done w'
    ∧ scene w' = scene cascade_world
    ∧ (∀ x k, k ≠ "entity" -> k ≠ "parent" ->
         get (heap_of w') x k = get (heap_of cascade_world) x k)
    ∧ (∀ x, x ≠ 1 ->
         get (heap_of w') (VRef x) "parent" = get (heap_of cascade_world) (VRef x) "parent")
    ∧ (∀ x, x ∉ preorder (heap_of cascade_world) 2 1 ->
         get (heap_of w') (VRef x) "entity" = get (heap_of cascade_world) (VRef x) "entity")
    ∧ (∀ x, children_of (heap_of w') x
            = if decide (get (heap_of cascade_world) (VRef 1) "parent" = VRef x)
              then remove_first 1 (children_of (heap_of cascade_world) x)
              else children_of (heap_of cascade_world) x).
Proof.
  split.
  { split; [reflexivity|]. split; [exact cascade_world_tree|exact cascade_world_detachable]. }
  exact (remove_keeps_the_rest 2 cascade_world 10 true 1 eq_refl cascade_world_tree
           cascade_world_detachable).
Defined.

Lemma cascade_world_preorder : NoDup (preorder (heap_of cascade_world) 2 1).
Proof.
  change (preorder (heap_of cascade_world) 2 1) with [1; 2; 3].
  repeat (apply NoDup_cons; split;
            [rewrite ?elem_of_cons, ?elem_of_nil; intuition discriminate|]).
  apply NoDup_nil_2.
Defined.

Lemma remove_order_witness :
  (getComponent cascade_world 10 Object3DComponent false = Some (VRef 1)
   ∧ tree (heap_of cascade_world) 2 1
   ∧ NoDup (preorder (heap_of cascade_world) 2 1)
   ∧ parent_detachable (heap_of cascade_world) 1)
  ∧ ∃ w', remove 2 cascade_world 10 false = Done w'
    ∧ (false = false ->
       entitiesToRemove w'
       = entitiesToRemove cascade_world
         ++ back_refs (heap_of cascade_world) (preorder (heap_of cascade_world) 2 1) ++ [10]
       ∧ entities w' = entities cascade_world)
    ∧ (false = true ->
       entities w'
       = filter (λ x, x ∉ back_refs (heap_of cascade_world)
                            (preorder (heap_of cascade_world) 2 1) ++ [10])
           (entities cascade_world)
       ∧ entitiesToRemove w' = entitiesToRemove cascade_world).
Proof.
  split.
  { split; [reflexivity|]. split; [exact cascade_world_tree|].
    split; [exact cascade_world_preorder|exact cascade_world_detachable]. }
  exact (remove_order 2 cascade_world 10 false 1 eq_refl cascade_world_tree
           cascade_world_preorder cascade_world_detachable).
Defined.

(** The entity is asked to be removed twice: once from the node that
    refers back to it, once at the end. *)
Example remove_order_example :
  remove 2 cascade_world 10 false ≫= (λ w', Done (entitiesToRemove w', entities w'))
  = Done ([10; 11; 12; 10], [10; 11; 12]).
Proof. vm_compute. reflexivity. Qed.


